(** * KruGoZor: the per-tick frame pipeline of [RoundCamWindow]

    A shallow embedding of the compositing kernel of [KruGoZor_11_5.py]:
    [clamp], the crop step, the cover fit and the letterbox, the chroma
    mask, the circular shape mask, the mask composition, the tick with its
    missed-frame counter, and [scale_circle].

    Python integers are [Z] ([//] is [Z.div], [%] is [Z.modulo]); NumPy
    casts are written out as wrap-arounds; an exception is [None]. *)

From Stdlib Require Import ZArith List Bool Lia QArith Qround Reals Lra.
Import ListNotations.

Local Open Scope Z_scope.

(** ** NumPy arrays

    A two-dimensional array is its shape and its items.  Only the items
    inside the shape are meaningful; every statement below quantifies over
    them alone. *)

Module Np.

Record ndarray (A : Type) : Type := mk_nd {
  shape0 : nat;                 (* a.shape[0], the number of rows *)
  shape1 : nat;                 (* a.shape[1], the number of columns *)
  item : nat -> nat -> A        (* a[i, j] *)
}.

Arguments mk_nd {A} _ _ _.
Arguments shape0 {A} _.
Arguments shape1 {A} _.
Arguments item {A} _ _ _.

(** The rows of an array as lists, for reading a value off. *)
Definition tolist {A} (a : ndarray A) : list (list A) :=
  map (fun i => map (fun j => item a i j) (seq 0 (shape1 a))) (seq 0 (shape0 a)).

(** [np.full((h, w), v)] and [np.zeros((h, w))]. *)
Definition full {A} (h w : nat) (v : A) : ndarray A := mk_nd h w (fun _ _ => v).

(** A bound of a slice [a[lo:hi]] on an axis of length [n]: a negative
    bound counts from the end, and the result is clipped to [0..n]. *)
Definition slice_index (n : nat) (i : Z) : nat :=
  Z.to_nat (if i <? 0 then Z.max 0 (Z.of_nat n + i) else Z.min (Z.of_nat n) i).

(** [a[y:y2, x:x2]]. *)
Definition slice {A} (a : ndarray A) (y y2 x x2 : Z) : ndarray A :=
  let r0 := slice_index (shape0 a) y in
  let r1 := slice_index (shape0 a) y2 in
  let c0 := slice_index (shape1 a) x in
  let c1 := slice_index (shape1 a) x2 in
  mk_nd (r1 - r0) (c1 - c0) (fun i j => item a (r0 + i) (c0 + j)).

(** One axis of a broadcast: the source has the length of the target, or
    length 1 and is repeated. *)
Definition broadcasts (src dst : nat) : bool :=
  Nat.eqb src dst || Nat.eqb src 1.

Definition bidx (src i : nat) : nat := if Nat.eqb src 1 then 0%nat else i.

(** [dst[y:y2, x:x2] = src]: the region takes the items of [src]; a shape
    that does not broadcast to the region raises. *)
Definition assign_slice {A} (dst : ndarray A) (y y2 x x2 : Z) (src : ndarray A)
  : option (ndarray A) :=
  let r0 := slice_index (shape0 dst) y in
  let r1 := slice_index (shape0 dst) y2 in
  let c0 := slice_index (shape1 dst) x in
  let c1 := slice_index (shape1 dst) x2 in
  if broadcasts (shape0 src) (r1 - r0) && broadcasts (shape1 src) (c1 - c0) then
    Some (mk_nd (shape0 dst) (shape1 dst)
            (fun i j =>
               if (r0 <=? i)%nat && (i <? r1)%nat && (c0 <=? j)%nat && (j <? c1)%nat
               then item src (bidx (shape0 src) (i - r0)) (bidx (shape1 src) (j - c0))
               else item dst i j))
  else None.

(** A pointwise operation on two arrays of one shape; other shapes raise
    (no array of this program is combined with one of another shape). *)
Definition zip_with {A B C} (f : A -> B -> C) (a : ndarray A) (b : ndarray B)
  : option (ndarray C) :=
  if Nat.eqb (shape0 a) (shape0 b) && Nat.eqb (shape1 a) (shape1 b) then
    Some (mk_nd (shape0 a) (shape1 a) (fun i j => f (item a i j) (item b i j)))
  else None.

Definition map_nd {A B} (f : A -> B) (a : ndarray A) : ndarray B :=
  mk_nd (shape0 a) (shape1 a) (fun i j => f (item a i j)).

(** [a.astype(np.uint8)], [a.astype(np.uint16)], [a.astype(np.int16)] and
    [a.astype(np.int32)] on one value. *)
Definition u8 (z : Z) : Z := z mod 256.
Definition u16 (z : Z) : Z := z mod 65536.
Definition i16 (z : Z) : Z := (z + 32768) mod 65536 - 32768.
Definition i32 (z : Z) : Z := (z + 2147483648) mod 4294967296 - 2147483648.

(** Every item inside the shape satisfies [P]. *)
Definition all_items {A} (P : A -> Prop) (a : ndarray A) : Prop :=
  forall i j, (i < shape0 a)%nat -> (j < shape1 a)%nat -> P (item a i j).

Definition is_u8 (z : Z) : Prop := 0 <= z <= 255.

End Np.

Import Np.

(** A colour sample of three 8-bit channels, in the order of its stage. *)
Definition pixel : Type := (Z * Z * Z)%type.
Definition image : Type := ndarray pixel.
Definition mask : Type := ndarray Z.

Definition black : pixel := (0, 0, 0).

(** ** [clamp] *)

Definition clamp (v lo hi : Z) : Z := Z.max lo (Z.min hi v).

(** ** The crop step of [on_tick] *)

Record CropConfig : Type := mk_crop {
  crop_enabled : bool;
  crop_rect : option (Z * Z * Z * Z)      (* [x, y, w, h], or None *)
}.

(** The clamped rectangle [(x2, y2, w2, h2)] for a frame of shape [fh, fw]. *)
Definition crop_clamp (fh fw : Z) (r : Z * Z * Z * Z) : Z * Z * Z * Z :=
  let '(x, y, w, h) := r in
  let x2 := clamp x 0 (fw - 1) in
  let y2 := clamp y 0 (fh - 1) in
  let w2 := clamp w 1 (fw - x2) in
  let h2 := clamp h 1 (fh - y2) in
  (x2, y2, w2, h2).

(** [src = frame], then the crop when it is enabled and a rect is stored. *)
Definition crop_step {A} (crop : CropConfig) (frame : ndarray A) : ndarray A :=
  match crop_enabled crop, crop_rect crop with
  | true, Some r =>
      let '(x2, y2, w2, h2) :=
        crop_clamp (Z.of_nat (shape0 frame)) (Z.of_nat (shape1 frame)) r in
      slice frame y2 (y2 + h2) x2 (x2 + w2)
  | _, _ => frame
  end.

(** ** The composition of the two masks *)

(** [(alpha.astype(uint16) * shape_mask.astype(uint16) // 255).astype(uint8)]
    on one pixel; the product is taken in 16 bits. *)
Definition compose_px (a s : Z) : Z := u8 (u16 (u16 a * u16 s) / 255).

Definition compose_masks (alpha shape_mask : mask) : option mask :=
  zip_with compose_px alpha shape_mask.

(** ** [scale_circle] *)

Record AppState : Type := mk_state {
  window_mirror : bool;
  vcam_mirror : bool;
  circle_diameter : Z;
  window_shape_circle : bool;      (* window_shape == "circle" *)
  vcam_fit_fill : bool             (* vcam_fit == "fill" *)
}.

Definition set_circle_diameter (st : AppState) (d : Z) : AppState :=
  mk_state (window_mirror st) (vcam_mirror st) d
           (window_shape_circle st) (vcam_fit_fill st).

Definition scale_circle (st : AppState) (direction : Z) : AppState :=
  set_circle_diameter st (clamp (circle_diameter st + 20 * direction) 120 1080).

(** The state after a sequence of calls, first call first. *)
Definition scale_circle_seq (st : AppState) (dirs : list Z) : AppState :=
  fold_left scale_circle dirs st.

(** ** What the program takes from OpenCV and NumPy

    The samples an interpolation or a blur produces, the colour conversion
    to HSV and the rounded square root are the libraries' own.  They are
    kept as operations of an interface; shapes, failures and everything the
    program itself computes are written out. *)

Inductive interpolation : Type := INTER_LINEAR | INTER_AREA.

(** A [float32] value. *)
Inductive f32 : Type :=
| Fin (q : Q)
| PInf
| NInf
| NaN.

Class Cv2 : Type := {
  (* the sample at [i, j] of [cv2.resize(src, (nw, nh), interpolation)] *)
  resize_px : interpolation -> image -> nat -> nat -> nat -> nat -> pixel;
  (* one sample of [cv2.cvtColor(img, cv2.COLOR_BGR2HSV)] *)
  bgr2hsv : pixel -> pixel;
  (* the sample at [i, j] of [cv2.GaussianBlur(mask, (k, k), 0)] *)
  blur_px : Z -> mask -> nat -> nat -> Z;
  (* [np.sqrt(sq).astype(np.float32)] on one value *)
  sqrt32 : Z -> f32
}.

(** What the chroma mask needs of the blur: it is monotone for the
    pointwise order and leaves an all-zero mask all zero. *)
Definition mask_le (m1 m2 : mask) : Prop :=
  shape0 m1 = shape0 m2 /\ shape1 m1 = shape1 m2 /\
  forall i j, (i < shape0 m1)%nat -> (j < shape1 m1)%nat -> item m1 i j <= item m2 i j.

Class BlurLaws (cv : Cv2) : Prop := {
  blur_monotone : forall k m1 m2 i j,
    mask_le m1 m2 -> (i < shape0 m1)%nat -> (j < shape1 m1)%nat ->
    blur_px k m1 i j <= blur_px k m2 i j;
  blur_zero : forall k m i j,
    all_items (fun v => v = 0) m -> (i < shape0 m)%nat -> (j < shape1 m)%nat ->
    blur_px k m i j = 0
}.

(** ** Python arithmetic on floats, taken exactly

    The scales of the fits are quotients of two image sizes.  They are
    taken as rationals, without the rounding of a float; what is proved
    about the size of a fitted buffer is proved for every size of the
    resized image ([crop_pad_spec]), so that it does not rest on this. *)

(** [a / b] on two integers; a zero divisor raises. *)
Definition py_div (a b : Z) : option Q :=
  if b =? 0 then None else Some (inject_Z a / inject_Z b)%Q.

(** [max(a, b)] and [min(a, b)]: the first argument unless the second is
    strictly greater, respectively smaller. *)
Definition py_qmax (a b : Q) : Q := if negb (Qle_bool b a) then b else a.
Definition py_qmin (a b : Q) : Q := if negb (Qle_bool a b) then b else a.

(** [int(x)]: truncation towards zero. *)
Definition py_int (q : Q) : Z := if Qle_bool 0 q then Qfloor q else Qceiling q.

(** [sqrt(v) <= r], decided without rounding. *)
Definition sqrt_le (v r : Q) : bool := Qle_bool 0 r && Qle_bool v (r * r).

Definition bind {A B} (o : option A) (f : A -> option B) : option B :=
  match o with
  | Some a => f a
  | None => None
  end.

Notation "x <- e ;; k" := (bind e (fun x => k))
  (at level 61, e at next level, right associativity).

(** ** Geometry *)

Section Pipeline.

Context {cv : Cv2}.

(** [cv2.resize(src, (nw, nh), interpolation=ip)]: an empty source or an
    empty target size raises. *)
Definition resize (src : image) (nw nh : Z) (ip : interpolation) : option image :=
  if Nat.eqb (shape0 src) 0 || Nat.eqb (shape1 src) 0 || (nw <=? 0) || (nh <=? 0)
  then None
  else Some (mk_nd (Z.to_nat nh) (Z.to_nat nw)
               (resize_px ip src (Z.to_nat nh) (Z.to_nat nw))).

(** [np.zeros((H, W, 3))]: a negative dimension raises. *)
Definition np_zeros (H W : Z) : option image :=
  if (H <? 0) || (W <? 0) then None
  else Some (full (Z.to_nat H) (Z.to_nat W) black).

(** [cv2.flip(img, 1)]. *)
Definition flip_h {A} (a : ndarray A) : ndarray A :=
  mk_nd (shape0 a) (shape1 a) (fun i j => item a i (shape1 a - 1 - j)).

(** [cv2.cvtColor(img, cv2.COLOR_BGR2RGB)]. *)
Definition bgr2rgb (p : pixel) : pixel := let '(b, g, r) := p in (r, g, b).

(** The common tail of the two cover fits, on the resized image and the
    width and height the fit takes for it: the centred window, zero-padded
    at the bottom and right when it is short. *)
Definition crop_pad (rs : image) (nw nh W H : Z) : option image :=
  let x := Z.max 0 ((nw - W) / 2) in
  let y := Z.max 0 ((nh - H) / 2) in
  let x2 := Z.min nw (x + W) in
  let y2 := Z.min nh (y + H) in
  let out := slice rs y y2 x x2 in
  if negb (Z.of_nat (shape0 out) =? H) || negb (Z.of_nat (shape1 out) =? W) then
    pad <- np_zeros H W ;;
    assign_slice pad 0 (Z.of_nat (shape0 out)) 0 (Z.of_nat (shape1 out)) out
  else Some out.

(** The scaled size [(nw, nh)] of [center_crop_fit]. *)
Definition cover_size (w h W H : Z) : option (Z * Z) :=
  sw <- py_div W w ;;
  sh <- py_div H h ;;
  let scale := py_qmax sw sh in
  Some (Qceiling (inject_Z w * scale), Qceiling (inject_Z h * scale)).

Definition center_crop_fit (rgb : image) (W H : Z) : option image :=
  let h := Z.of_nat (shape0 rgb) in
  let w := Z.of_nat (shape1 rgb) in
  sz <- cover_size w h W H ;;
  let nw := fst sz in
  let nh := snd sz in
  rs <- resize rgb nw nh INTER_AREA ;;
  crop_pad rs nw nh W H.

(** The scaled size [(nw, nh)] of [letterbox]. *)
Definition letterbox_size (w h W H : Z) : option (Z * Z) :=
  sw <- py_div W w ;;
  sh <- py_div H h ;;
  let scale := py_qmin sw sh in
  Some (py_int (inject_Z w * scale), py_int (inject_Z h * scale)).

Definition letterbox (rgb : image) (W H : Z) : option image :=
  let h := Z.of_nat (shape0 rgb) in
  let w := Z.of_nat (shape1 rgb) in
  sz <- letterbox_size w h W H ;;
  let nw := fst sz in
  let nh := snd sz in
  resized <- resize rgb nw nh INTER_AREA ;;
  out <- np_zeros H W ;;
  let x := (W - nw) / 2 in
  let y := (H - nh) / 2 in
  assign_slice out y (y + nh) x (x + nw) resized.

(** The cover fit of [on_tick] to the square window: the same as
    [center_crop_fit] but with guarded divisors and sizes. *)
Definition window_size (w h target : Z) : option (Z * Z) :=
  sw <- py_div target (Z.max 1 w) ;;
  sh <- py_div target (Z.max 1 h) ;;
  let scale := py_qmax sw sh in
  let nw := Qceiling (inject_Z w * scale) in
  let nh := Qceiling (inject_Z h * scale) in
  Some (if nw <? 1 then 1 else nw, if nh <? 1 then 1 else nh).

Definition window_fit (disp : image) (target : Z) : option image :=
  let h := Z.of_nat (shape0 disp) in
  let w := Z.of_nat (shape1 disp) in
  sz <- window_size w h target ;;
  rs <- resize disp (fst sz) (snd sz) INTER_LINEAR ;;
  crop_pad rs (Z.of_nat (shape1 rs)) (Z.of_nat (shape0 rs)) target target.

(** ** The chroma mask *)

Record ChromaConfig : Type := mk_chroma {
  chroma_enabled : bool;
  pickA : option (Z * Z * Z);      (* (r, g, b), or None *)
  tolA : Z;
  pickB : option (Z * Z * Z);
  tolB : Z;
  use_hsv : bool;
  h_min : Z; h_max : Z;
  s_min : Z; s_max : Z;
  v_min : Z; v_max : Z;
  feather : Z
}.

(** [np.nan_to_num(dist, nan=0.0, posinf=255.0, neginf=0.0)] on one value. *)
Definition nan_to_num (v : f32) : f32 :=
  match v with
  | Fin q => Fin q
  | NaN => Fin 0
  | PInf => Fin 255
  | NInf => Fin 0
  end.

(** [dist <= tol] on one value. *)
Definition f32_le (v : f32) (tol : Z) : bool :=
  match v with
  | Fin q => Qle_bool q (inject_Z tol)
  | NInf => true
  | PInf => false
  | NaN => false
  end.

(** The squared distance of one pixel to the target, in the widths the
    program computes it in: the difference and its absolute value in 16
    bits, the squares in 32 bits, their sum in the platform integer (which
    three such squares fit). *)
Definition sq_dist (p target : pixel) : Z :=
  let '(p0, p1, p2) := p in
  let '(t0, t1, t2) := target in
  let d0 := i16 (Z.abs (i16 (i16 p0 - t0))) in
  let d1 := i16 (Z.abs (i16 (i16 p1 - t1))) in
  let d2 := i16 (Z.abs (i16 (i16 p2 - t2))) in
  i32 (d0 * d0) + i32 (d1 * d1) + i32 (d2 * d2).

(** The sanitised distance of one pixel. *)
Definition pixel_dist (p target : pixel) : f32 := nan_to_num (sqrt32 (sq_dist p target)).

(** [(dist <= tol).astype(np.uint8) * 255] on one value. *)
Definition threshold (dist : f32) (tol : Z) : Z := if f32_le dist tol then 255 else 0.

(** One round of the loop over [(pickA, tolA)] and [(pickB, tolB)]. *)
Definition add_pick (bgr_img : image) (m : mask) (pick : option (Z * Z * Z)) (tol : Z)
  : mask :=
  match pick with
  | None => m
  | Some (r, g, b) =>
      let target := (i16 b, i16 g, i16 r) in
      mk_nd (shape0 m) (shape1 m)
        (fun i j => Z.max (item m i j) (threshold (pixel_dist (item bgr_img i j) target) tol))
  end.

(** [cv2.inRange(hsv, lower, upper)] on one pixel. *)
Definition in_range (p lower upper : pixel) : Z :=
  let '(p0, p1, p2) := p in
  let '(l0, l1, l2) := lower in
  let '(u0, u1, u2) := upper in
  if (l0 <=? p0) && (p0 <=? u0) && (l1 <=? p1) && (p1 <=? u1) && (l2 <=? p2) && (p2 <=? u2)
  then 255 else 0.

(** The raw background region, before feathering. *)
Definition background (c : ChromaConfig) (bgr_img : image) : mask :=
  if use_hsv c then
    let lower := (u8 (h_min c), u8 (s_min c), u8 (v_min c)) in
    let upper := (u8 (h_max c), u8 (s_max c), u8 (v_max c)) in
    map_nd (fun p => in_range (bgr2hsv p) lower upper) bgr_img
  else
    let m0 := full (shape0 bgr_img) (shape1 bgr_img) 0 in
    add_pick bgr_img (add_pick bgr_img m0 (pickA c) (tolA c)) (pickB c) (tolB c).

(** The kernel size: [k = max(0, int(feather))], made odd when positive. *)
Definition kernel_size (feather : Z) : Z :=
  let k := Z.max 0 feather in
  if k mod 2 =? 0 then (if 0 <? k then k + 1 else 0) else k.

Definition GaussianBlur (k : Z) (m : mask) : mask :=
  mk_nd (shape0 m) (shape1 m) (blur_px k m).

Definition feathered (c : ChromaConfig) (m : mask) : mask :=
  let k := kernel_size (feather c) in
  if 3 <=? k then GaussianBlur k m else m.

(** [cv2.subtract(a, b)] on one 8-bit value: the difference, saturated. *)
Definition cv_subtract (a b : Z) : Z := Z.max 0 (Z.min 255 (a - b)).

Definition build_alpha_mask (c : ChromaConfig) (bgr_img : image) : mask :=
  map_nd (cv_subtract 255) (feathered c (background c bgr_img)).

(** ** The shape mask *)

(** [circle_alpha_mask(size)]: [c = (size - 1) / 2.0], [r = size / 2.0],
    and 255 where [sqrt((x - c) ** 2 + (y - c) ** 2) <= r]. *)
Definition circle_px (size : Z) (y x : nat) : Z :=
  let c := (inject_Z (size - 1) / 2)%Q in
  let r := (inject_Z size / 2)%Q in
  let dx := (inject_Z (Z.of_nat x) - c)%Q in
  let dy := (inject_Z (Z.of_nat y) - c)%Q in
  if sqrt_le (dx * dx + dy * dy)%Q r then 255 else 0.

Definition circle_alpha_mask (size : Z) : mask :=
  mk_nd (Z.to_nat size) (Z.to_nat size) (circle_px size).

End Pipeline.

(** ** The tick *)

Inductive log_event : Type :=
| WarnNoFrame (count : Z)        (* "no frame from the camera", with the count *)
| CapProps                       (* what [log_cap_props] writes *)
| InfoRecovered (count : Z)      (* "frames are back after [count] empty reads" *)
| ExcSend                        (* the virtual camera refused the frame *)
| InfoVcamStopped
| ExcTick.                       (* an exception caught at the end of [on_tick] *)

(** The fields of [RoundCamWindow] the tick reads or writes.  [log] and
    [sent] grow at the head. *)
Record Window : Type := mk_window {
  cap_opened : bool;                            (* self.cap and self.cap.isOpened() *)
  no_frame_count : Z;
  last_frame_bgr : option image;
  current_qpix : option (ndarray (pixel * Z));  (* the RGBA window image *)
  vcam : bool;                                  (* self.vcam is not None *)
  sent : list image;                            (* frames the virtual camera took *)
  log : list log_event;
  crop : CropConfig;
  chroma : ChromaConfig;
  state : AppState;
  win_width : Z;                                (* self.size().width() *)
  vcam_w : Z;
  vcam_h : Z
}.

Definition with_count (s : Window) (n : Z) : Window :=
  mk_window (cap_opened s) n (last_frame_bgr s) (current_qpix s) (vcam s) (sent s)
    (log s) (crop s) (chroma s) (state s) (win_width s) (vcam_w s) (vcam_h s).

Definition with_log (s : Window) (e : log_event) : Window :=
  mk_window (cap_opened s) (no_frame_count s) (last_frame_bgr s) (current_qpix s)
    (vcam s) (sent s) (e :: log s) (crop s) (chroma s) (state s) (win_width s)
    (vcam_w s) (vcam_h s).

Definition with_last_frame (s : Window) (f : image) : Window :=
  mk_window (cap_opened s) (no_frame_count s) (Some f) (current_qpix s) (vcam s)
    (sent s) (log s) (crop s) (chroma s) (state s) (win_width s) (vcam_w s) (vcam_h s).

Definition with_qpix (s : Window) (q : ndarray (pixel * Z)) : Window :=
  mk_window (cap_opened s) (no_frame_count s) (last_frame_bgr s) (Some q) (vcam s)
    (sent s) (log s) (crop s) (chroma s) (state s) (win_width s) (vcam_w s) (vcam_h s).

Definition with_sent (s : Window) (out : image) : Window :=
  mk_window (cap_opened s) (no_frame_count s) (last_frame_bgr s) (current_qpix s)
    (vcam s) (out :: sent s) (log s) (crop s) (chroma s) (state s) (win_width s)
    (vcam_w s) (vcam_h s).

Definition with_vcam (s : Window) (v : bool) : Window :=
  mk_window (cap_opened s) (no_frame_count s) (last_frame_bgr s) (current_qpix s)
    v (sent s) (log s) (crop s) (chroma s) (state s) (win_width s) (vcam_w s) (vcam_h s).

(** The test that decides whether a missed frame is reported. *)
Definition reports_miss (count : Z) : bool :=
  (count =? 1) || (count =? 10) || (count =? 50) || (count mod 100 =? 0).

(** The branch of [on_tick] for [not ok or frame is None]. *)
Definition miss (s : Window) : Window :=
  let n := no_frame_count s + 1 in
  let s1 := with_count s n in
  if reports_miss n then with_log (with_log s1 (WarnNoFrame n)) CapProps else s1.

(** The reset of the counter on a read that gave a frame. *)
Definition recover (s : Window) : Window :=
  if no_frame_count s =? 0 then s
  else with_count (with_log s (InfoRecovered (no_frame_count s))) 0.

(** [stop_vcam], the device closing without an error. *)
Definition stop_vcam (s : Window) : Window :=
  if vcam s then with_vcam (with_log s InfoVcamStopped) false else s.

Section Tick.

Context {cv : Cv2}.

(** From the frame to the square [roi], its alpha and the RGBA image. *)
Definition window_stage (s : Window) (frame : image)
  : option (image * mask * ndarray (pixel * Z)) :=
  let src := crop_step (crop s) frame in
  let disp := if window_mirror (state s) then flip_h src else src in
  let target := Z.max 1 (win_width s) in
  roi <- window_fit disp target ;;
  let alpha :=
    if chroma_enabled (chroma s) then build_alpha_mask (chroma s) roi
    else full (shape0 roi) (shape1 roi) 255 in
  let shape_mask :=
    if window_shape_circle (state s) then circle_alpha_mask (Z.of_nat (shape1 roi))
    else full (shape0 roi) (shape1 roi) 255 in
  final <- compose_masks alpha shape_mask ;;
  argb <- zip_with (fun p a => (bgr2rgb p, a)) roi final ;;
  Some (roi, final, argb).

(** From [roi] to the frame for the virtual camera. *)
Definition vcam_stage (s : Window) (roi : image) : option image :=
  let vframe := if vcam_mirror (state s) then flip_h roi else roi in
  let vframe_rgb := map_nd bgr2rgb vframe in
  if vcam_fit_fill (state s) then center_crop_fit vframe_rgb (vcam_w s) (vcam_h s)
  else letterbox vframe_rgb (vcam_w s) (vcam_h s).

(** [on_tick], on what [self.cap.read()] returned and on whether the
    virtual camera takes the frame it is sent. *)
Definition on_tick (s : Window) (ok : bool) (frame : option image) (send_ok : bool)
  : Window :=
  if negb (cap_opened s) then s
  else
    match ok, frame with
    | true, Some f =>
        let s1 := with_last_frame (recover s) f in
        match window_stage s1 f with
        | None => with_log s1 ExcTick
        | Some (roi, _, argb) =>
            let s2 := with_qpix s1 argb in
            if vcam s2 then
              match vcam_stage s2 roi with
              | None => with_log s2 ExcTick
              | Some out =>
                  if send_ok then with_sent s2 out
                  else stop_vcam (with_log s2 ExcSend)
              end
            else s2
        end
    | _, _ => miss s
    end.

(** The window after a run of reads, first read first. *)
Fixpoint run (s : Window) (reads : list (bool * option image * bool)) : Window :=
  match reads with
  | [] => s
  | (ok, frame, send_ok) :: rest => run (on_tick s ok frame send_ok) rest
  end.

End Tick.

(** ** A small implementation of the library interface

    Used to run the definitions on concrete frames: a nearest-neighbour
    resize, a box blur over the [k] by [k] neighbourhood with replicated
    borders, and a square root rounded up to an integer (which decides
    [dist <= tol] as the exact root does, [tol] being an integer).  The HSV
    conversion is left the identity. *)

Module Plain.

Definition nearest (src : image) (nh nw i j : nat) : pixel :=
  item src (i * shape0 src / nh)%nat (j * shape1 src / nw)%nat.

(** An index pushed back inside an axis of length [n]. *)
Definition inside (n : nat) (z : Z) : nat :=
  Z.to_nat (Z.max 0 (Z.min (Z.of_nat n - 1) z)).

Definition offsets (k : Z) : list Z :=
  map (fun d => Z.of_nat d - k / 2) (seq 0 (Z.to_nat k)).

Definition sum_list (l : list Z) : Z := fold_right Z.add 0 l.

Definition window_sum (k : Z) (m : mask) (i j : nat) : Z :=
  sum_list
    (map (fun d => item m (inside (shape0 m) (Z.of_nat i + fst d))
                          (inside (shape1 m) (Z.of_nat j + snd d)))
         (list_prod (offsets k) (offsets k))).

Definition box_blur (k : Z) (m : mask) (i j : nat) : Z :=
  window_sum k m i j / (k * k).

Definition ceil_sqrt (z : Z) : Z :=
  let s := Z.sqrt z in if s * s =? z then s else s + 1.

Definition root (z : Z) : f32 :=
  if z <? 0 then NaN else Fin (inject_Z (ceil_sqrt z)).

Definition cv : Cv2 :=
  {| resize_px := fun _ => nearest;
     bgr2hsv := fun p => p;
     blur_px := box_blur;
     sqrt32 := root |}.

(** A frame of one colour, and a frame whose pixel at [i, j] is
    [(i, j, 0)]. *)
Definition solid (h w : nat) (p : pixel) : image := full h w p.
Definition grid (h w : nat) : image :=
  mk_nd h w (fun i j => (Z.of_nat i, Z.of_nat j, 0)).


Definition default_chroma : ChromaConfig :=
  mk_chroma false None 30 None 30 false 35 85 40 255 40 255 15.

Definition default_state : AppState := mk_state false false 360 true true.

Definition default_window : Window :=
  mk_window true 0 None None false [] [] (mk_crop false None)
    default_chroma default_state 360 1920 1080.

End Plain.

(** [c] with another [tolA]. *)
Definition with_tolA (c : ChromaConfig) (t : Z) : ChromaConfig :=
  mk_chroma (chroma_enabled c) (pickA c) t (pickB c) (tolB c) (use_hsv c)
    (h_min c) (h_max c) (s_min c) (s_max c) (v_min c) (v_max c) (feather c).

(** ** The masks of the window stage *)

Section StageMasks.

Context {cv : Cv2}.

(** The alpha and the shape mask [on_tick] composes for the square [roi]. *)
Definition stage_alpha (s : Window) (roi : image) : mask :=
  if chroma_enabled (chroma s) then build_alpha_mask (chroma s) roi
  else full (shape0 roi) (shape1 roi) 255.

Definition stage_shape (s : Window) (roi : image) : mask :=
  if window_shape_circle (state s) then circle_alpha_mask (Z.of_nat (shape1 roi))
  else full (shape0 roi) (shape1 roi) 255.

End StageMasks.

(** ** What a tick leaves alone *)

(** The configuration of [s'] is that of [s]. *)
Definition same_config (s s' : Window) : Prop :=
  cap_opened s' = cap_opened s /\ crop s' = crop s /\ chroma s' = chroma s /\
  state s' = state s /\ win_width s' = win_width s /\
  vcam_w s' = vcam_w s /\ vcam_h s' = vcam_h s.

(** From [s] to [s'] the configuration is kept, the virtual camera is not
    switched on, the log has only grown and nothing was sent. *)
Definition quiet_step (s s' : Window) : Prop :=
  same_config s s' /\
  (vcam s' = true -> vcam s = true) /\
  (exists l, log s' = l ++ log s) /\
  sent s' = sent s.

(** ** The dialogs: picking a rect and picking a colour *)

(** [a / b] on two floats; a zero divisor raises. *)
Definition py_qdiv (a b : Q) : option Q :=
  if Qeq_bool b 0 then None else Some (a / b)%Q.

(** [clamp(v, lo, hi)] on floats: [max(lo, min(hi, v))]. *)
Definition qclamp (v lo hi : Q) : Q := py_qmax lo (py_qmin hi v).

(** The scale of a preview label of [lbl_w] by [lbl_h] showing a frame of
    [w] by [h], and the displayed size and offsets both dialogs derive
    from it. *)
Definition preview_scale (w h lbl_w lbl_h : Z) : option Q :=
  sw <- py_div lbl_w w ;;
  sh <- py_div lbl_h h ;;
  Some (py_qmin sw sh).

(** [CropDialog.selected_rect_source_coords]: [shape] is the shape
    [(h, w)] of the cached frame, [selection] the normalised rectangle
    [(x, y, width, height)] of the drag when both of its points are set.
    The outer [None] is an exception, the inner one the value [None]. *)
Definition selected_rect_source_coords
    (shape : option (Z * Z)) (lbl_w lbl_h : Z)
    (selection initial_rect : option (Z * Z * Z * Z))
  : option (option (Z * Z * Z * Z)) :=
  match shape with
  | None => Some None
  | Some (h, w) =>
      scale <- preview_scale w h lbl_w lbl_h ;;
      let off_x := (lbl_w - py_int (inject_Z w * scale)) / 2 in
      let off_y := (lbl_h - py_int (inject_Z h * scale)) / 2 in
      match selection with
      | Some (rx, ry, rwidth, rheight) =>
          x <- py_qdiv (inject_Z (clamp (rx - off_x) 0 lbl_w)) scale ;;
          y <- py_qdiv (inject_Z (clamp (ry - off_y) 0 lbl_h)) scale ;;
          rw <- py_qdiv (inject_Z (clamp rwidth 1 lbl_w)) scale ;;
          rh <- py_qdiv (inject_Z (clamp rheight 1 lbl_h)) scale ;;
          let x := py_int (qclamp x 0 (inject_Z (w - 1))) in
          let y := py_int (qclamp y 0 (inject_Z (h - 1))) in
          let rw := py_int (qclamp rw 1 (inject_Z (w - x))) in
          let rh := py_int (qclamp rh 1 (inject_Z (h - y))) in
          Some (Some (x, y, rw, rh))
      | None => Some initial_rect
      end
  end.

(** [open_crop_dialog] once the dialog is accepted with the rect [rect]. *)
Definition accept_crop (rect : option (Z * Z * Z * Z)) : CropConfig :=
  mk_crop (match rect with Some _ => true | None => false end) rect.

Inductive pick_which : Type := PickA | PickB.

(** The fields of [ChromaDialog] a click on the preview reads or writes;
    [chroma_of] is the configuration the dialog shares with the window. *)
Record ChromaDialog : Type := mk_dialog {
  chroma_of : ChromaConfig;
  pick_target : option pick_which;      (* the attribute [_pick_target], if set *)
  pickA_pos : option (Z * Z);
  pickB_pos : option (Z * Z)
}.

Definition with_pickA (c : ChromaConfig) (p : Z * Z * Z) : ChromaConfig :=
  mk_chroma (chroma_enabled c) (Some p) (tolA c) (pickB c) (tolB c) (use_hsv c)
    (h_min c) (h_max c) (s_min c) (s_max c) (v_min c) (v_max c) (feather c).

Definition with_pickB (c : ChromaConfig) (p : Z * Z * Z) : ChromaConfig :=
  mk_chroma (chroma_enabled c) (pickA c) (tolA c) (Some p) (tolB c) (use_hsv c)
    (h_min c) (h_max c) (s_min c) (s_max c) (v_min c) (v_max c) (feather c).

(** [frame[fy, fx]] for indices that are not negative: out of the frame
    it raises. *)
Definition frame_at (frame : image) (fy fx : Z) : option pixel :=
  if (0 <=? fy) && (fy <? Z.of_nat (shape0 frame)) &&
     (0 <=? fx) && (fx <? Z.of_nat (shape1 frame))
  then Some (item frame (Z.to_nat fy) (Z.to_nat fx)) else None.

(** [start_pick(which)]. *)
Definition start_pick (d : ChromaDialog) (which : pick_which) : ChromaDialog :=
  mk_dialog (chroma_of d) (Some which) (pickA_pos d) (pickB_pos d).

(** [ChromaDialog.on_preview_click] for a click at [(ex, ey)] on a label
    of [lbl_w] by [lbl_h], [frame] being what [get_frame()] returns. *)
Definition on_preview_click (d : ChromaDialog) (frame : option image)
    (lbl_w lbl_h ex ey : Z) : option ChromaDialog :=
  match pick_target d, frame with
  | None, _ => Some d
  | Some _, None => Some d
  | Some which, Some fr =>
      let h := Z.of_nat (shape0 fr) in
      let w := Z.of_nat (shape1 fr) in
      scale <- preview_scale w h lbl_w lbl_h ;;
      let disp_w := py_int (inject_Z w * scale) in
      let disp_h := py_int (inject_Z h * scale) in
      let off_x := (lbl_w - disp_w) / 2 in
      let off_y := (lbl_h - disp_h) / 2 in
      let x := ex - off_x in
      let y := ey - off_y in
      if (x <? 0) || (y <? 0) || (disp_w <=? x) || (disp_h <=? y) then Some d
      else
        qx <- py_qdiv (inject_Z x) scale ;;
        qy <- py_qdiv (inject_Z y) scale ;;
        let fx := py_int qx in
        let fy := py_int qy in
        p <- frame_at fr fy fx ;;
        let '(b, g, r) := p in
        Some (match which with
              | PickA => mk_dialog (with_pickA (chroma_of d) (r, g, b)) None
                           (Some (fx, fy)) (pickB_pos d)
              | PickB => mk_dialog (with_pickB (chroma_of d) (r, g, b)) None
                           (pickA_pos d) (Some (fx, fy))
              end)
  end.

(** What a click on the preview does, as [on_preview_click] computes it:
    the dialog after the pick of [(r, g, b)] at [(fx, fy)], and the two
    cases of a click on a frame shown in a label. *)
Definition picked (d : ChromaDialog) (which : pick_which) (rgb : Z * Z * Z) (fx fy : Z)
  : ChromaDialog :=
  match which with
  | PickA => mk_dialog (with_pickA (chroma_of d) rgb) None (Some (fx, fy)) (pickB_pos d)
  | PickB => mk_dialog (with_pickB (chroma_of d) rgb) None (pickA_pos d) (Some (fx, fy))
  end.

Definition click_outcome (d : ChromaDialog) (frame : image) (which : pick_which)
    (lbl_w lbl_h ex ey : Z) : Prop :=
  exists scale,
    preview_scale (Z.of_nat (shape1 frame)) (Z.of_nat (shape0 frame)) lbl_w lbl_h
      = Some scale /\
    let disp_w := py_int (inject_Z (Z.of_nat (shape1 frame)) * scale) in
    let disp_h := py_int (inject_Z (Z.of_nat (shape0 frame)) * scale) in
    let x := ex - (lbl_w - disp_w) / 2 in
    let y := ey - (lbl_h - disp_h) / 2 in
    (0 <= x < disp_w -> 0 <= y < disp_h ->
     exists fx fy b g r,
       (fx < shape1 frame)%nat /\ (fy < shape0 frame)%nat /\
       item frame fy fx = (b, g, r) /\
       on_preview_click d (Some frame) lbl_w lbl_h ex ey
         = Some (picked d which (r, g, b) (Z.of_nat fx) (Z.of_nat fy))) /\
    (x < 0 \/ y < 0 \/ disp_w <= x \/ disp_h <= y ->
     on_preview_click d (Some frame) lbl_w lbl_h ex ey = Some d).

(** Every sample of the frame is an 8-bit value. *)
Definition u8_frame (frame : image) : Prop :=
  all_items (fun p => is_u8 (fst (fst p)) /\ is_u8 (snd (fst p)) /\ is_u8 (snd p)) frame.

(** ** The window as a widget: click-through and dragging *)

Definition WS_EX_LAYERED : Z := 0x00080000.
Definition WS_EX_TRANSPARENT : Z := 0x00000020.

(** [_win_set_exstyle_flag(add, flag)] on the extended style of the
    window; [nt] is [os.name == "nt"]. *)
Definition win_set_exstyle_flag (nt add : bool) (flag exstyle : Z) : Z :=
  if negb nt then exstyle
  else if add then Z.lor exstyle flag
  else Z.land exstyle (Z.lnot flag).

(** [_apply_click_through_windows(enabled)]. *)
Definition apply_click_through_windows (nt enabled : bool) (exstyle : Z) : Z :=
  if negb nt then exstyle
  else win_set_exstyle_flag nt enabled WS_EX_TRANSPARENT
         (win_set_exstyle_flag nt true WS_EX_LAYERED exstyle).

(** The fields the mouse events and [set_click_through] read or write.
    The window has no frame ([FramelessWindowHint] is among its base
    flags), so [frameGeometry().topLeft()] and the corner of [geometry()]
    are one point, [top_left], and [move(p)] sets it to [p]. *)
Record Widget : Type := mk_widget {
  click_through : bool;          (* state.click_through *)
  mouse_transparent : bool;      (* the attribute WA_TransparentForMouseEvents *)
  exstyle : Z;
  dragging : bool;
  drag_pos : Z * Z;
  top_left : Z * Z;
  pos_xy : Z * Z                 (* state.pos_x, state.pos_y *)
}.

Inductive mouse_button : Type := LeftButton | OtherButton.

(** What the handler did with the event. *)
Inductive verdict : Type := Accepted | Ignored | Untouched.

Inductive mouse_event : Type :=
| Press (button : mouse_button) (globalPos : Z * Z)
| Move (globalPos : Z * Z)
| Release.

Definition psub (p q : Z * Z) : Z * Z := (fst p - fst q, snd p - snd q).

(** [set_click_through(enabled)].  It also sets the check mark of its
    menu action; when that changes the mark, the action calls the setter a
    second time with the same argument, which changes nothing more. *)
Definition set_click_through (nt : bool) (w : Widget) (enabled : bool) : Widget :=
  mk_widget enabled enabled (apply_click_through_windows nt enabled (exstyle w))
    (dragging w) (drag_pos w) (top_left w) (pos_xy w).

Definition mousePressEvent (w : Widget) (button : mouse_button) (globalPos : Z * Z)
  : Widget * verdict :=
  if click_through w then (w, Ignored)
  else
    match button with
    | LeftButton =>
        (mk_widget (click_through w) (mouse_transparent w) (exstyle w)
           true (psub globalPos (top_left w)) (top_left w) (pos_xy w), Accepted)
    | OtherButton => (w, Ignored)
    end.

Definition mouseMoveEvent (w : Widget) (globalPos : Z * Z) : Widget * verdict :=
  if dragging w && negb (click_through w) then
    (mk_widget (click_through w) (mouse_transparent w) (exstyle w)
       (dragging w) (drag_pos w) (psub globalPos (drag_pos w)) (pos_xy w), Accepted)
  else (w, Ignored).

Definition mouseReleaseEvent (w : Widget) : Widget * verdict :=
  if dragging w then
    (mk_widget (click_through w) (mouse_transparent w) (exstyle w)
       false (drag_pos w) (top_left w) (top_left w), Untouched)
  else if click_through w then (w, Ignored)
  else (w, Untouched).

Definition mouse (w : Widget) (e : mouse_event) : Widget * verdict :=
  match e with
  | Press button p => mousePressEvent w button p
  | Move p => mouseMoveEvent w p
  | Release => mouseReleaseEvent w
  end.

(** The widget after a sequence of events, first event first. *)
Definition mouse_seq (w : Widget) (es : list mouse_event) : Widget :=
  fold_left (fun w e => fst (mouse w e)) es w.

(** ** Switching the virtual camera *)

(** From [w] to [w'] only the virtual camera and the log may differ. *)
Definition kept_window (w w' : Window) : Prop :=
  same_config w w' /\ sent w' = sent w /\ current_qpix w' = current_qpix w /\
  last_frame_bgr w' = last_frame_bgr w /\ no_frame_count w' = no_frame_count w.

Inductive vcam_event : Type :=
| InfoVcamFlag (enabled : bool)
| WarnNoPyvirtualcam
| InfoVcamStarted
| ExcVcamStart.

(** The window with the flag [state.vcam_enabled], the check mark of the
    menu action [act_vcam_enable], and what [set_vcam_enabled] and
    [start_vcam] write to the log. *)
Record VcamCtl : Type := mk_ctl {
  ctl_window : Window;
  vcam_enabled : bool;
  act_checked : bool;
  ctl_log : list vcam_event
}.

Definition ctl_with_window (c : VcamCtl) (w : Window) : VcamCtl :=
  mk_ctl w (vcam_enabled c) (act_checked c) (ctl_log c).

Definition ctl_with_flag (c : VcamCtl) (b : bool) : VcamCtl :=
  mk_ctl (ctl_window c) b (act_checked c) (ctl_log c).

Definition ctl_with_checked (c : VcamCtl) (b : bool) : VcamCtl :=
  mk_ctl (ctl_window c) (vcam_enabled c) b (ctl_log c).

Definition ctl_with_log (c : VcamCtl) (e : vcam_event) : VcamCtl :=
  mk_ctl (ctl_window c) (vcam_enabled c) (act_checked c) (e :: ctl_log c).

(** The action is connected to [set_vcam_enabled]: a [setChecked] that
    changes the check mark calls the setter again, from within.  The
    three functions that follow are the setter as it runs in such a call,
    where its own [setChecked] changes nothing.

    [set_vcam_enabled(False)] with the action unchecked. *)
Definition vcam_off (c : VcamCtl) : VcamCtl :=
  let c1 := ctl_with_log (ctl_with_flag c false) (InfoVcamFlag false) in
  ctl_with_window c1 (stop_vcam (ctl_window c1)).

(** [act_vcam_enable.setChecked(False)]. *)
Definition uncheck (c : VcamCtl) : VcamCtl :=
  if act_checked c then vcam_off (ctl_with_checked c false) else c.

(** [start_vcam]: [have] is [HAVE_PYVIRTUALCAM]; [cams] tells for each
    coming call of [pyvirtualcam.Camera(...)] whether it returns a camera
    rather than raising, and what is left of it is returned. *)
Definition start_vcam (have : bool) (cams : list bool) (c : VcamCtl)
  : VcamCtl * list bool :=
  if negb have then
    (uncheck (ctl_with_flag (ctl_with_log c WarnNoPyvirtualcam) false), cams)
  else if vcam (ctl_window c) then (c, cams)
  else
    match cams with
    | true :: rest =>
        (ctl_with_log (ctl_with_window c (with_vcam (ctl_window c) true)) InfoVcamStarted,
         rest)
    | _ =>
        (uncheck (ctl_with_flag
                    (ctl_with_window (ctl_with_log c ExcVcamStart)
                       (with_vcam (ctl_window c) false)) false),
         tl cams)
    end.

(** [set_vcam_enabled(True)] with the action checked. *)
Definition vcam_on (have : bool) (cams : list bool) (c : VcamCtl) : VcamCtl * list bool :=
  start_vcam have cams (ctl_with_log (ctl_with_flag c true) (InfoVcamFlag true)).

(** [set_vcam_enabled(enabled)], called from anywhere. *)
Definition set_vcam_enabled (have : bool) (cams : list bool) (c : VcamCtl) (enabled : bool)
  : VcamCtl * list bool :=
  let c1 := ctl_with_flag c enabled in
  let '(c2, cams2) :=
    if Bool.eqb (act_checked c1) enabled then (c1, cams)
    else if enabled then vcam_on have cams (ctl_with_checked c1 true)
    else (vcam_off (ctl_with_checked c1 false), cams) in
  let c3 := ctl_with_log c2 (InfoVcamFlag enabled) in
  if enabled then start_vcam have cams2 c3
  else (ctl_with_window c3 (stop_vcam (ctl_window c3)), cams2).

(** ** The persisted configuration

    [load_config] and [save_config] work on the three configuration
    objects through their attribute names, and on whatever [json.load]
    returns.  They are modelled on JSON values; an object (a Python [dict],
    or the attributes of a dataclass instance) is the list of its items in
    insertion order, each key occurring once. *)

From Stdlib Require String.

Module Config.

Import String.
Local Open Scope string_scope.
Local Set Warnings "-register-all".

Inductive json : Type :=
| JNull
| JBool (b : bool)
| JInt (z : Z)
| JFloat (q : Q)
| JStr (s : string)
| JArr (l : list json)
| JObj (o : list (string * json)).

Definition obj : Type := list (string * json).

(** [o[k]] on a dict, and [setattr(o, k, v)] / [o[k] = v]. *)
Fixpoint lookup (k : string) (o : obj) : option json :=
  match o with
  | [] => None
  | (k', v) :: rest => if String.eqb k' k then Some v else lookup k rest
  end.

Fixpoint set_item (k : string) (v : json) (o : obj) : obj :=
  match o with
  | [] => [(k, v)]
  | (k', v') :: rest =>
      if String.eqb k' k then (k', v) :: rest else (k', v') :: set_item k v rest
  end.

Definition keys (o : obj) : list string := map fst o.

(** [p in s] on two strings. *)
Fixpoint is_substring (p s : string) : bool :=
  prefix p s ||
  match s with
  | EmptyString => false
  | String _ s' => is_substring p s'
  end.

(** [k in g] for a string [k]: the keys of a dict, the items of a list,
    the substrings of a string; anything else raises. *)
Definition contains (g : json) (k : string) : option bool :=
  match g with
  | JObj o => Some (match lookup k o with Some _ => true | None => false end)
  | JArr l => Some (existsb (fun e => match e with
                                      | JStr s => String.eqb s k
                                      | _ => false
                                      end) l)
  | JStr s => Some (is_substring k s)
  | _ => None
  end.

(** [g[k]] for a string [k]: a list, a string or a scalar raises, and so
    does a dict without the key. *)
Definition get_item (g : json) (k : string) : option json :=
  match g with
  | JObj o => lookup k o
  | _ => None
  end.

(** The fields of the three dataclasses, in the order of their
    declaration, which is the order of [vars(C()).keys()] and of
    [asdict]. *)
Definition state_fields : list string :=
  ["always_on_top"; "click_through"; "window_mirror"; "vcam_enabled"; "vcam_mirror";
   "circle_diameter"; "pos_x"; "pos_y"; "window_shape"; "vcam_fit"; "window_opacity"].

Definition chroma_fields : list string :=
  ["enabled"; "pickA"; "tolA"; "pickB"; "tolB"; "use_hsv"; "h_min"; "h_max";
   "s_min"; "s_max"; "v_min"; "v_max"; "feather"; "ui_opacity"; "persist"].

Definition crop_fields : list string := ["enabled"; "rect"].

(** [AppState()], [ChromaConfig()] and [CropConfig()]. *)
Definition default_state : obj :=
  [("always_on_top", JBool true); ("click_through", JBool false);
   ("window_mirror", JBool false); ("vcam_enabled", JBool false);
   ("vcam_mirror", JBool false); ("circle_diameter", JInt 360);
   ("pos_x", JInt 100); ("pos_y", JInt 100); ("window_shape", JStr "circle");
   ("vcam_fit", JStr "fill"); ("window_opacity", JFloat 1)].

Definition default_chroma : obj :=
  [("enabled", JBool false); ("pickA", JNull); ("tolA", JInt 30); ("pickB", JNull);
   ("tolB", JInt 30); ("use_hsv", JBool false); ("h_min", JInt 35); ("h_max", JInt 85);
   ("s_min", JInt 40); ("s_max", JInt 255); ("v_min", JInt 40); ("v_max", JInt 255);
   ("feather", JInt 15); ("ui_opacity", JFloat (17 # 20)); ("persist", JBool true)].

Definition default_crop : obj := [("enabled", JBool false); ("rect", JNull)].

(** The three objects of the window. *)
Record configs : Type := mk_configs {
  cfg_state : obj;
  cfg_chroma : obj;
  cfg_crop : obj
}.

(** What is at the path of [config.json]: nothing, a file [json.load]
    raises on, or a file it reads as [data]. *)
Inductive config_file : Type :=
| NoFile
| BadFile
| File (data : json).

(** [ensure_first_run_files]: an absent file is created as [{}], unless the
    write fails, which is passed over in silence. *)
Definition ensure_first_run_files (can_write : bool) (f : config_file) : config_file :=
  match f with
  | NoFile => if can_write then File (JObj []) else NoFile
  | _ => f
  end.

(** The loop [for k in fields: if k in g: setattr(o, k, g[k])].  The flag
    is false when the loop raised; the attributes set before stay set. *)
Fixpoint load_fields (fields : list string) (g : json) (o : obj) : obj * bool :=
  match fields with
  | [] => (o, true)
  | k :: rest =>
      match contains g k with
      | None => (o, false)
      | Some false => load_fields rest g o
      | Some true =>
          match get_item g k with
          | None => (o, false)
          | Some v => load_fields rest g (set_item k v o)
          end
      end
  end.

(** One of the three blocks [if name in data: ...]. *)
Definition load_group (name : string) (fields : list string) (data : json) (o : obj)
  : obj * bool :=
  match contains data name with
  | None => (o, false)
  | Some false => (o, true)
  | Some true =>
      match get_item data name with
      | None => (o, false)
      | Some g => load_fields fields g o
      end
  end.

Inductive config_event : Type := InfoLoaded | ExcLoad | InfoSaved | ExcSave.

(** The [try] block of [load_config], after [ensure_first_run_files]. *)
Definition load_from (f : config_file) (c : configs) : configs * config_event :=
  match f with
  | NoFile => (c, InfoLoaded)
  | BadFile => (c, ExcLoad)
  | File data =>
      let (st, ok1) := load_group "state" state_fields data (cfg_state c) in
      if negb ok1 then (mk_configs st (cfg_chroma c) (cfg_crop c), ExcLoad)
      else
        let (ch, ok2) := load_group "chroma" chroma_fields data (cfg_chroma c) in
        if negb ok2 then (mk_configs st ch (cfg_crop c), ExcLoad)
        else
          let (cr, ok3) := load_group "crop" crop_fields data (cfg_crop c) in
          (mk_configs st ch cr, if ok3 then InfoLoaded else ExcLoad)
  end.

Definition load_config (can_write : bool) (f : config_file) (c : configs)
  : configs * config_file * config_event :=
  let f' := ensure_first_run_files can_write f in
  let (c', e) := load_from f' c in
  (c', f', e).

(** [asdict(o)]: the fields, in their order, with their values; a missing
    attribute raises. *)
Fixpoint asdict (fields : list string) (o : obj) : option obj :=
  match fields with
  | [] => Some []
  | k :: rest =>
      match lookup k o, asdict rest o with
      | Some v, Some d => Some ((k, v) :: d)
      | _, _ => None
      end
  end.

(** The [data] of [save_config]. *)
Definition save_data (c : configs) : option json :=
  match asdict state_fields (cfg_state c), asdict chroma_fields (cfg_chroma c),
        asdict crop_fields (cfg_crop c) with
  | Some st, Some ch, Some cr =>
      Some (JObj [("state", JObj st); ("chroma", JObj ch); ("crop", JObj cr)])
  | _, _, _ => None
  end.

(** [save_config]: what is at the path afterwards; a failed write leaves
    the path as it was found. *)
Definition save_config (can_write : bool) (f : config_file) (c : configs)
  : config_file * config_event :=
  match save_data c with
  | Some data => if can_write then (File data, InfoSaved) else (f, ExcSave)
  | None => (f, ExcSave)
  end.

(** An instance of a dataclass: its attributes are the fields, in their
    order. *)
Definition instance_of (fields : list string) (o : obj) : Prop := keys o = fields.

Definition instances (c : configs) : Prop :=
  instance_of state_fields (cfg_state c) /\
  instance_of chroma_fields (cfg_chroma c) /\
  instance_of crop_fields (cfg_crop c).

End Config.

Module ConfigSpec.

Import String Config.

(** [o'] is [o] with the values the group [g] of the file has for the
    fields; the attributes themselves are those of [o]. *)
Definition merged (fields : list string) (g : option json) (o o' : obj) : Prop :=
  keys o' = keys o /\
  forall k,
    lookup k o' =
      match g with
      | Some (JObj go) =>
          if in_dec string_dec k fields then
            match lookup k go with
            | Some v => Some v
            | None => lookup k o
            end
          else lookup k o
      | _ => lookup k o
      end.

(** A group of the file is absent or a JSON object. *)
Definition group_ok (g : option json) : Prop :=
  match g with
  | None => True
  | Some (JObj _) => True
  | Some _ => False
  end.

(** A JSON value that is neither a dict, a list nor a string. *)
Definition is_scalar (g : json) : Prop :=
  match g with
  | JNull | JBool _ | JInt _ | JFloat _ => True
  | _ => False
  end.

End ConfigSpec.

(** ** The command line: [parse_size]

    A string is taken as a string of ASCII characters.  What [int] makes
    of a part is Python's own and is kept as a parameter. *)

Module Cli.

Import Ascii String.
Local Open Scope string_scope.

(** [c.lower()] on one ASCII character. *)
Definition lower_ascii (c : ascii) : ascii :=
  let n := nat_of_ascii c in
  if (65 <=? n)%nat && (n <=? 90)%nat then ascii_of_nat (n + 32) else c.

(** [s.lower()]. *)
Fixpoint lower (s : string) : string :=
  match s with
  | EmptyString => EmptyString
  | String c rest => String (lower_ascii c) (lower rest)
  end.

(** [s.split(sep)] for a separator of one character: the parts between
    the occurrences of [sep], at least one. *)
Fixpoint split (sep : ascii) (s : string) : list string :=
  match s with
  | EmptyString => [EmptyString]
  | String c rest =>
      if Ascii.eqb c sep then EmptyString :: split sep rest
      else
        match split sep rest with
        | part :: parts => String c part :: parts
        | [] => [String c EmptyString]
        end
  end.

(** [parse_size(s)], with [None] for the [ArgumentTypeError]. *)
Definition parse_size (int : string -> option Z) (s : string) : option (Z * Z) :=
  match split "x" (lower s) with
  | p0 :: p1 :: _ =>
      match int p0, int p1 with
      | Some W, Some H => Some (W, H)
      | _, _ => None
      end
  | _ => None
  end.

(** The string has neither an [x] nor an [X]. *)
Fixpoint no_x (s : string) : Prop :=
  match s with
  | EmptyString => True
  | String c rest => c <> "x"%char /\ c <> "X"%char /\ no_x rest
  end.

(** A reading of plain decimal numerals, to run [parse_size] on: the
    value of a non-empty string of digits, nothing else. *)
Definition digit_of (c : ascii) : option Z :=
  let n := nat_of_ascii c in
  if (48 <=? n)%nat && (n <=? 57)%nat then Some (Z.of_nat (n - 48)) else None.

Fixpoint digits_from (acc : Z) (s : string) : option Z :=
  match s with
  | EmptyString => Some acc
  | String c rest =>
      match digit_of c with
      | Some d => digits_from (10 * acc + d) rest
      | None => None
      end
  end.

Definition plain_int (s : string) : option Z :=
  match s with
  | EmptyString => None
  | _ => digits_from 0 s
  end.

End Cli.

(** ** The vocabulary of the statements *)

(** The diameter is within the bounds of [scale_circle]; a direction is
    one of the two the shortcuts pass. *)
Definition diameter_ok (st : AppState) : Prop := 120 <= circle_diameter st <= 1080.
Definition is_step (d : Z) : Prop := d = 1 \/ d = -1.

(** The read gave no frame: [not ok or frame is None]. *)
Definition no_frame (ok : bool) (frame : option image) : Prop :=
  ok = false \/ frame = None.

(** A buffer of exactly [W] by [H]. *)
Definition has_size {A} (a : ndarray A) (W H : Z) : Prop :=
  Z.of_nat (shape0 a) = H /\ Z.of_nat (shape1 a) = W.

(** The window [crop_pad] cuts on one axis: where it starts in a resized
    axis of length [n], and how long it is. *)
Definition window_x (n W : Z) : Z := Z.max 0 ((n - W) / 2).
Definition window_len (n W : Z) : Z := Z.min n (window_x n W + W) - window_x n W.

(** [out] is the centred window of [rs], and black below and to the right
    of it. *)
Definition padded_window (rs out : image) (W H : Z) : Prop :=
  let nw := Z.of_nat (shape1 rs) in
  let nh := Z.of_nat (shape0 rs) in
  forall i j, Z.of_nat i < H -> Z.of_nat j < W ->
    item out i j =
      if (Z.of_nat i <? window_len nh H) && (Z.of_nat j <? window_len nw W)
      then item rs (Z.to_nat (window_x nh H) + i) (Z.to_nat (window_x nw W) + j)
      else black.



(** * Properties *)

(** ** Slices and assignments *)

Lemma slice_index_nonneg (n : nat) (i : Z) :
  0 <= i -> slice_index n i = Z.to_nat (Z.min (Z.of_nat n) i).
Proof.
  intros Hi. unfold slice_index.
  destruct (Z.ltb_spec i 0); [lia | reflexivity].
Qed.

Lemma slice_index_inside (n : nat) (i : Z) :
  0 <= i <= Z.of_nat n -> slice_index n i = Z.to_nat i.
Proof.
  intros Hi. rewrite slice_index_nonneg by lia. f_equal. lia.
Qed.

Lemma slice_inside {A} (a : ndarray A) (y y2 x x2 : Z) :
  0 <= y <= y2 -> y2 <= Z.of_nat (shape0 a) ->
  0 <= x <= x2 -> x2 <= Z.of_nat (shape1 a) ->
  shape0 (slice a y y2 x x2) = Z.to_nat (y2 - y) /\
  shape1 (slice a y y2 x x2) = Z.to_nat (x2 - x) /\
  forall i j, item (slice a y y2 x x2) i j = item a (Z.to_nat y + i) (Z.to_nat x + j).
Proof.
  intros Hy Hy2 Hx Hx2. unfold slice. cbn [shape0 shape1 item].
  rewrite !slice_index_inside by lia.
  repeat split; lia.
Qed.

Lemma broadcasts_same (n : nat) : broadcasts n n = true.
Proof. unfold broadcasts. rewrite Nat.eqb_refl. reflexivity. Qed.

Lemma bidx_small (n i : nat) : (i < n)%nat -> bidx n i = i.
Proof.
  intros Hi. unfold bidx. destruct (Nat.eqb_spec n 1); [lia | reflexivity].
Qed.

(** ** C1: the composition of the masks *)

Lemma compose_px_exact (a s : Z) :
  is_u8 a -> is_u8 s -> compose_px a s = a * s / 255.
Proof.
  unfold is_u8, compose_px, u8, u16. intros Ha Hs.
  rewrite (Z.mod_small a), (Z.mod_small s) by lia.
  assert (0 <= a * s <= 65025) by nia.
  rewrite (Z.mod_small (a * s)) by lia.
  assert (0 <= a * s / 255 <= 255).
  { split; [apply Z.div_pos; lia | apply Z.div_le_upper_bound; lia]. }
  apply Z.mod_small. lia.
Qed.

Lemma compose_px_law (a s : Z) :
  is_u8 a -> is_u8 s ->
  (compose_px a s = 255 -> a = 255 /\ s = 255) /\
  (a = 0 \/ s = 0 -> compose_px a s = 0) /\
  0 <= compose_px a s <= 255.
Proof.
  intros Ha Hs. rewrite compose_px_exact by assumption.
  unfold is_u8 in *.
  assert (Hq : 0 <= a * s / 255 <= 255).
  { split; [apply Z.div_pos; nia | apply Z.div_le_upper_bound; nia]. }
  repeat split; try lia.
  - pose proof (Z.mul_div_le (a * s) 255 ltac:(lia)). nia.
  - pose proof (Z.mul_div_le (a * s) 255 ltac:(lia)). nia.
  - intros [-> | ->]; [rewrite Z.mul_0_l | rewrite Z.mul_0_r]; reflexivity.
Qed.

Lemma compose_masks_some (alpha shape_mask : mask) :
  shape0 alpha = shape0 shape_mask -> shape1 alpha = shape1 shape_mask ->
  all_items is_u8 alpha -> all_items is_u8 shape_mask ->
  exists final,
    compose_masks alpha shape_mask = Some final /\
    shape0 final = shape0 alpha /\ shape1 final = shape1 alpha /\
    forall i j, (i < shape0 final)%nat -> (j < shape1 final)%nat ->
      (item final i j = 255 -> item alpha i j = 255 /\ item shape_mask i j = 255) /\
      (item alpha i j = 0 \/ item shape_mask i j = 0 -> item final i j = 0) /\
      0 <= item final i j <= 255.
Proof.
  intros H0 H1 Ha Hs. unfold compose_masks, zip_with.
  rewrite (proj2 (Nat.eqb_eq _ _) H0), (proj2 (Nat.eqb_eq _ _) H1). cbn [andb].
  eexists. split; [reflexivity |]. cbn [shape0 shape1 item].
  split; [reflexivity |]. split; [reflexivity |].
  intros i j Hi Hj. apply compose_px_law.
  - apply Ha; assumption.
  - apply Hs; [rewrite <- H0 | rewrite <- H1]; assumption.
Qed.

(** C1. For an alpha mask and a shape mask of one shape with 8-bit
    values, the composition is computed, has that shape, and at every
    pixel: it is 255 only if both masks are 255, it is 0 whenever either
    mask is 0, and it lies in [0, 255]. *)
Theorem compose_masks_law (alpha shape_mask : mask) :
  shape0 alpha = shape0 shape_mask -> shape1 alpha = shape1 shape_mask ->
  all_items is_u8 alpha -> all_items is_u8 shape_mask ->
  exists final,
    compose_masks alpha shape_mask = Some final /\
    shape0 final = shape0 alpha /\ shape1 final = shape1 alpha /\
    forall i j, (i < shape0 final)%nat -> (j < shape1 final)%nat ->
      (item final i j = 255 -> item alpha i j = 255 /\ item shape_mask i j = 255) /\
      (item alpha i j = 0 \/ item shape_mask i j = 0 -> item final i j = 0) /\
      0 <= item final i j <= 255.
Proof. exact (compose_masks_some alpha shape_mask). Qed.

(** The law at work on a circle over an opaque alpha, on four pixels. *)
Lemma compose_masks_law_witness :
  exists final,
    compose_masks (full 2 2 255) (full 2 2 0) = Some final /\
    shape0 final = 2%nat /\ shape1 final = 2%nat /\
    forall i j, (i < shape0 final)%nat -> (j < shape1 final)%nat ->
      (item final i j = 255 ->
       item (full 2 2 255) i j = 255 /\ item (full 2 2 0) i j = 255) /\
      (item (full 2 2 255) i j = 0 \/ item (full 2 2 0) i j = 0 ->
       item final i j = 0) /\
      0 <= item final i j <= 255.
Proof.
  apply (compose_masks_law (full 2 2 255) (full 2 2 0)).
  - reflexivity.
  - reflexivity.
  - intros i j _ _. cbn. unfold is_u8. lia.
  - intros i j _ _. cbn. unfold is_u8. lia.
Defined.

(** ** C3: the clamping of the crop rect *)

Lemma clamp_bounds (v lo hi : Z) : lo <= hi -> lo <= clamp v lo hi <= hi.
Proof. unfold clamp. lia. Qed.

Lemma clamp_id (v lo hi : Z) : lo <= v <= hi -> clamp v lo hi = v.
Proof. unfold clamp. lia. Qed.

Lemma crop_clamp_bounds (fh fw x y w h : Z) :
  0 < fh -> 0 < fw ->
  exists x2 y2 w2 h2,
    crop_clamp fh fw (x, y, w, h) = (x2, y2, w2, h2) /\
    0 <= x2 /\ 0 <= y2 /\ 1 <= w2 /\ 1 <= h2 /\ x2 + w2 <= fw /\ y2 + h2 <= fh.
Proof.
  intros Hh Hw. unfold crop_clamp.
  pose proof (clamp_bounds x 0 (fw - 1) ltac:(lia)) as Hx.
  pose proof (clamp_bounds y 0 (fh - 1) ltac:(lia)) as Hy.
  pose proof (clamp_bounds w 1 (fw - clamp x 0 (fw - 1)) ltac:(lia)).
  pose proof (clamp_bounds h 1 (fh - clamp y 0 (fh - 1)) ltac:(lia)).
  do 4 eexists. split; [reflexivity |]. lia.
Qed.

Lemma crop_step_spec {A} (frame : ndarray A) (x y w h : Z) :
  (0 < shape0 frame)%nat -> (0 < shape1 frame)%nat ->
  exists x2 y2 w2 h2,
    crop_clamp (Z.of_nat (shape0 frame)) (Z.of_nat (shape1 frame)) (x, y, w, h)
      = (x2, y2, w2, h2) /\
    0 <= x2 /\ 0 <= y2 /\ 1 <= w2 /\ 1 <= h2 /\
    x2 + w2 <= Z.of_nat (shape1 frame) /\ y2 + h2 <= Z.of_nat (shape0 frame) /\
    let sub := crop_step (mk_crop true (Some (x, y, w, h))) frame in
    Z.of_nat (shape0 sub) = h2 /\ Z.of_nat (shape1 sub) = w2 /\
    forall i j, item sub i j = item frame (Z.to_nat y2 + i) (Z.to_nat x2 + j).
Proof.
  intros Hh Hw.
  destruct (crop_clamp_bounds (Z.of_nat (shape0 frame)) (Z.of_nat (shape1 frame))
              x y w h ltac:(lia) ltac:(lia))
    as (x2 & y2 & w2 & h2 & E & Hx & Hy & Hw2 & Hh2 & Hxw & Hyh).
  exists x2, y2, w2, h2. split; [exact E |].
  repeat (split; [assumption |]).
  unfold crop_step. cbn [crop_enabled crop_rect]. rewrite E.
  destruct (slice_inside frame y2 (y2 + h2) x2 (x2 + w2)) as (S0 & S1 & S2); try lia.
  cbv zeta. rewrite S0, S1. repeat split; try lia. exact S2.
Qed.

(** C3. On a frame with positive width and height and for any stored
    integer rect, the crop step clamps to a rectangle with [x2, y2 >= 0],
    [w2, h2 >= 1], [x2 + w2 <= width] and [y2 + h2 <= height], and the
    sub-image it extracts has exactly that height and width and holds the
    frame's pixels at that offset. *)
Theorem crop_step_valid {A} (frame : ndarray A) (x y w h : Z) :
  (0 < shape0 frame)%nat -> (0 < shape1 frame)%nat ->
  exists x2 y2 w2 h2,
    crop_clamp (Z.of_nat (shape0 frame)) (Z.of_nat (shape1 frame)) (x, y, w, h)
      = (x2, y2, w2, h2) /\
    0 <= x2 /\ 0 <= y2 /\ 1 <= w2 /\ 1 <= h2 /\
    x2 + w2 <= Z.of_nat (shape1 frame) /\ y2 + h2 <= Z.of_nat (shape0 frame) /\
    let sub := crop_step (mk_crop true (Some (x, y, w, h))) frame in
    Z.of_nat (shape0 sub) = h2 /\ Z.of_nat (shape1 sub) = w2 /\
    forall i j, item sub i j = item frame (Z.to_nat y2 + i) (Z.to_nat x2 + j).
Proof. exact (crop_step_spec frame x y w h). Qed.

Lemma crop_step_valid_witness :
  exists x2 y2 w2 h2,
    crop_clamp 480 640 (1000, 1000, 50, 50) = (x2, y2, w2, h2) /\
    0 <= x2 /\ 0 <= y2 /\ 1 <= w2 /\ 1 <= h2 /\
    x2 + w2 <= 640 /\ y2 + h2 <= 480 /\
    let sub := crop_step (mk_crop true (Some (1000, 1000, 50, 50))) (Plain.grid 480 640) in
    Z.of_nat (shape0 sub) = h2 /\ Z.of_nat (shape1 sub) = w2 /\
    forall i j, item sub i j = item (Plain.grid 480 640) (Z.to_nat y2 + i) (Z.to_nat x2 + j).
Proof.
  apply (crop_step_valid (Plain.grid 480 640) 1000 1000 50 50); cbn; lia.
Defined.

(** The scenario of the specification: the rect (1000, 1000, 50, 50) on a
    640 by 480 frame becomes the bottom-right pixel. *)
Example crop_clamp_out_of_bounds :
  crop_clamp 480 640 (1000, 1000, 50, 50) = (639, 479, 1, 1).
Proof. reflexivity. Qed.

(** ** C4: a rect without area *)




(** ** C10: the diameter under [scale_circle] *)

Lemma scale_circle_range (st : AppState) (direction : Z) :
  diameter_ok (scale_circle st direction).
Proof.
  unfold diameter_ok, scale_circle, set_circle_diameter. cbn [circle_diameter].
  apply clamp_bounds. lia.
Qed.

Lemma scale_circle_step (st : AppState) (direction : Z) :
  diameter_ok st -> is_step direction ->
  Z.abs (circle_diameter (scale_circle st direction) - circle_diameter st) <= 20.
Proof.
  unfold diameter_ok, is_step, scale_circle, set_circle_diameter, clamp.
  cbn [circle_diameter]. lia.
Qed.

Lemma scale_circle_seq_snoc (st : AppState) (dirs : list Z) (d : Z) :
  scale_circle_seq st (dirs ++ [d]) = scale_circle (scale_circle_seq st dirs) d.
Proof. unfold scale_circle_seq. rewrite fold_left_app. reflexivity. Qed.

Lemma scale_circle_seq_ok (dirs : list Z) :
  forall st, diameter_ok st -> diameter_ok (scale_circle_seq st dirs).
Proof.
  induction dirs as [| d dirs IH]; intros st Hst.
  - exact Hst.
  - apply IH. apply scale_circle_range.
Qed.

(** C10. Starting from a diameter in [120, 1080], after every call of a
    sequence of [scale_circle(+1)] and [scale_circle(-1)] the diameter is
    in [120, 1080], and each call changes it by at most 20. *)
Theorem scale_circle_invariant (st : AppState) (dirs : list Z) :
  diameter_ok st -> Forall is_step dirs ->
  forall done d rest, dirs = done ++ d :: rest ->
    let before := scale_circle_seq st done in
    let after := scale_circle_seq st (done ++ [d]) in
    diameter_ok before /\ diameter_ok after /\
    0 < circle_diameter after /\
    Z.abs (circle_diameter after - circle_diameter before) <= 20.
Proof.
  intros Hst Hdirs done d rest E. cbv zeta.
  assert (Hb : diameter_ok (scale_circle_seq st done)) by (apply scale_circle_seq_ok; exact Hst).
  rewrite scale_circle_seq_snoc.
  assert (Hd : is_step d).
  { rewrite Forall_forall in Hdirs. apply Hdirs. rewrite E. apply in_elt. }
  pose proof (scale_circle_range (scale_circle_seq st done) d) as Ha.
  repeat split; try apply Hb; try apply Ha.
  - unfold diameter_ok in Ha. lia.
  - apply scale_circle_step; assumption.
Qed.

Lemma scale_circle_invariant_witness :
  let st := mk_state false false 1070 true true in
  let before := scale_circle_seq st [1; 1] in
  let after := scale_circle_seq st ([1; 1] ++ [-1]) in
  diameter_ok st /\ Forall is_step [1; 1; -1; 1] /\
  diameter_ok before /\ diameter_ok after /\
  0 < circle_diameter after /\
  Z.abs (circle_diameter after - circle_diameter before) <= 20.
Proof.
  assert (H0 : diameter_ok (mk_state false false 1070 true true)).
  { unfold diameter_ok. cbn. lia. }
  assert (H1 : Forall is_step [1; 1; -1; 1]).
  { repeat constructor; unfold is_step; lia. }
  split; [exact H0 |]. split; [exact H1 |].
  exact (scale_circle_invariant (mk_state false false 1070 true true) [1; 1; -1; 1]
           H0 H1 [1; 1] (-1) [1] eq_refl).
Defined.

(** The run of the witness: 1070, 1080 (clamped), 1080, 1060, 1080. *)
Example scale_circle_clamps :
  map circle_diameter
    (map (scale_circle_seq (mk_state false false 1070 true true))
       [[]; [1]; [1; 1]; [1; 1; -1]; [1; 1; -1; 1]])
  = [1070; 1080; 1080; 1060; 1080].
Proof. reflexivity. Qed.

(** ** C8: a tick without a frame *)

Section TickProperties.

Context {cv : Cv2}.

Lemma on_tick_no_frame (s : Window) (ok : bool) (frame : option image) (send_ok : bool) :
  cap_opened s = true -> no_frame ok frame -> on_tick s ok frame send_ok = miss s.
Proof.
  intros Hc Hn. unfold on_tick. rewrite Hc. cbn [negb].
  destruct Hn as [-> | ->]; [reflexivity | destruct ok; reflexivity].
Qed.

Lemma reports_miss_iff (n : Z) :
  reports_miss n = true <-> n = 1 \/ n = 10 \/ n = 50 \/ n mod 100 = 0.
Proof.
  unfold reports_miss. rewrite !orb_true_iff, !Z.eqb_eq. tauto.
Qed.

Lemma recover_count (s : Window) : no_frame_count (recover s) = 0.
Proof.
  unfold recover. destruct (Z.eqb_spec (no_frame_count s) 0) as [E | E].
  - exact E.
  - reflexivity.
Qed.

Lemma stop_vcam_count (s : Window) : no_frame_count (stop_vcam s) = no_frame_count s.
Proof. unfold stop_vcam. destruct (vcam s); reflexivity. Qed.

Lemma on_tick_frame_count (s : Window) (f : image) (send_ok : bool) :
  cap_opened s = true -> no_frame_count (on_tick s true (Some f) send_ok) = 0.
Proof.
  intros Hc. unfold on_tick. rewrite Hc. cbn [negb].
  destruct (window_stage _ f) as [[[roi final] argb] |].
  - destruct (vcam _).
    + destruct (vcam_stage _ roi) as [out |].
      * destruct send_ok.
        -- cbn. apply recover_count.
        -- rewrite stop_vcam_count. cbn. apply recover_count.
      * cbn. apply recover_count.
    + cbn. apply recover_count.
  - cbn. apply recover_count.
Qed.

Lemma miss_cap (s : Window) : cap_opened (miss s) = cap_opened s.
Proof. unfold miss. destruct (reports_miss _); reflexivity. Qed.

Lemma miss_fields (s : Window) :
  last_frame_bgr (miss s) = last_frame_bgr s /\
  current_qpix (miss s) = current_qpix s /\
  sent (miss s) = sent s /\
  no_frame_count (miss s) = no_frame_count s + 1.
Proof. unfold miss. destruct (reports_miss _); repeat split. Qed.

(** C8. On an open capture, a read that gives no frame leaves the last
    frame, the window image and what the virtual camera was sent as they
    were; it adds one to the counter and writes the diagnostic (the warning
    and the capture properties) exactly when the new count is 1, 10, 50 or
    a multiple of 100; and the next read that gives a frame sets the
    counter to 0. *)
Theorem on_tick_missed_frame (s : Window) (ok : bool) (frame : option image)
    (send_ok : bool) :
  cap_opened s = true -> no_frame ok frame ->
  let s' := on_tick s ok frame send_ok in
  let n := no_frame_count s + 1 in
  last_frame_bgr s' = last_frame_bgr s /\
  current_qpix s' = current_qpix s /\
  sent s' = sent s /\
  no_frame_count s' = n /\
  (n = 1 \/ n = 10 \/ n = 50 \/ n mod 100 = 0 ->
   log s' = CapProps :: WarnNoFrame n :: log s) /\
  (~ (n = 1 \/ n = 10 \/ n = 50 \/ n mod 100 = 0) -> log s' = log s) /\
  forall f send_ok', no_frame_count (on_tick s' true (Some f) send_ok') = 0.
Proof.
  intros Hc Hn. cbv zeta. rewrite (on_tick_no_frame s ok frame send_ok Hc Hn).
  pose proof (reports_miss_iff (no_frame_count s + 1)) as Hr.
  destruct (miss_fields s) as (E1 & E2 & E3 & E4).
  repeat split; try assumption.
  - intros H. unfold miss. rewrite (proj2 Hr H). reflexivity.
  - intros H. unfold miss. destruct (reports_miss _); [| reflexivity].
    exfalso. apply H, Hr. reflexivity.
  - intros f b. apply on_tick_frame_count. rewrite miss_cap. exact Hc.
Qed.

(** A run of reads without a frame: the outputs stay, the counter counts
    them. *)
Lemma run_missed_frames (reads : list (bool * option image * bool)) :
  forall s,
    cap_opened s = true ->
    Forall (fun r => no_frame (fst (fst r)) (snd (fst r))) reads ->
    let s' := run s reads in
    cap_opened s' = true /\
    last_frame_bgr s' = last_frame_bgr s /\
    current_qpix s' = current_qpix s /\
    sent s' = sent s /\
    no_frame_count s' = no_frame_count s + Z.of_nat (length reads).
Proof.
  induction reads as [| [[ok frame] b] reads IH]; intros s Hc Hall; cbv zeta.
  - cbn. repeat split; try assumption. lia.
  - inversion Hall as [| r l Hr Hl]; subst. cbn [fst snd] in Hr.
    cbn [run].
    rewrite (on_tick_no_frame s ok frame b Hc Hr).
    assert (Hc' : cap_opened (miss s) = true) by (rewrite miss_cap; exact Hc).
    destruct (IH _ Hc' Hl) as (F0 & F1 & F2 & F3 & F4).
    destruct (miss_fields s) as (E1 & E2 & E3 & E4).
    repeat split; try congruence.
    rewrite F4, E4. cbn [length]. lia.
Qed.

End TickProperties.

Lemma on_tick_missed_frame_witness :
  let s := with_count Plain.default_window 9 in
  let s' := @on_tick Plain.cv s false None true in
  let n := no_frame_count s + 1 in
  last_frame_bgr s' = last_frame_bgr s /\
  current_qpix s' = current_qpix s /\
  sent s' = sent s /\
  no_frame_count s' = n /\
  (n = 1 \/ n = 10 \/ n = 50 \/ n mod 100 = 0 ->
   log s' = CapProps :: WarnNoFrame n :: log s) /\
  (~ (n = 1 \/ n = 10 \/ n = 50 \/ n mod 100 = 0) -> log s' = log s) /\
  forall f send_ok', no_frame_count (@on_tick Plain.cv s' true (Some f) send_ok') = 0.
Proof.
  apply (@on_tick_missed_frame Plain.cv (with_count Plain.default_window 9) false None true).
  - reflexivity.
  - left. reflexivity.
Defined.

(** Among the counts 1 to 101, the reported ones are 1, 10, 50 and 100. *)
Example miss_reports :
  filter reports_miss (map Z.of_nat (seq 1 101)) = [1; 10; 50; 100].
Proof. reflexivity. Qed.

(** ** C5: NaN and infinities in the distance *)


Lemma threshold_const (q tol : Z) :
  threshold (Fin (inject_Z q)) tol = if q <=? tol then 255 else 0.
Proof.
  unfold threshold, f32_le.
  destruct (Z.leb_spec q tol) as [H | H].
  - rewrite (proj2 (Qle_bool_iff _ _)); [reflexivity | rewrite <- Zle_Qle; exact H].
  - destruct (Qle_bool (inject_Z q) (inject_Z tol)) eqn:E; [| reflexivity].
    apply Qle_bool_iff in E. rewrite <- Zle_Qle in E. lia.
Qed.



(** ** C6 and C9: the chroma mask in reference-colour mode *)

Lemma threshold_mono (v : f32) (t t' : Z) :
  t <= t' -> threshold v t <= threshold v t'.
Proof.
  intros Ht. unfold threshold. destruct (f32_le v t) eqn:E; [| destruct (f32_le v t'); lia].
  assert (E' : f32_le v t' = true).
  { destruct v; cbn in *; try congruence.
    apply Qle_bool_iff. apply Qle_bool_iff in E.
    eapply Qle_trans; [exact E | rewrite <- Zle_Qle; exact Ht]. }
  rewrite E'. lia.
Qed.

Lemma mask_le_refl (m : mask) : mask_le m m.
Proof. repeat split; intros; lia. Qed.

Section ChromaProperties.

Context {cv : Cv2}.

Lemma add_pick_shape (img : image) (m : mask) (pick : option (Z * Z * Z)) (tol : Z) :
  shape0 (add_pick img m pick tol) = shape0 m /\
  shape1 (add_pick img m pick tol) = shape1 m.
Proof. unfold add_pick. destruct pick as [[[r g] b] |]; split; reflexivity. Qed.

Lemma add_pick_mono (img : image) (m m' : mask) (pick : option (Z * Z * Z)) (t t' : Z) :
  mask_le m m' -> t <= t' -> mask_le (add_pick img m pick t) (add_pick img m' pick t').
Proof.
  intros (H0 & H1 & Hle) Ht. unfold add_pick.
  destruct pick as [[[r g] b] |]; [| repeat split; assumption].
  repeat split; cbn [shape0 shape1 item]; try assumption.
  intros i j Hi Hj. specialize (Hle i j Hi Hj).
  pose proof (threshold_mono (pixel_dist (item img i j) (i16 b, i16 g, i16 r)) t t' Ht).
  lia.
Qed.

Lemma background_shape (c : ChromaConfig) (img : image) :
  shape0 (background c img) = shape0 img /\ shape1 (background c img) = shape1 img.
Proof.
  unfold background. destruct (use_hsv c); [split; reflexivity |].
  destruct (add_pick_shape img (add_pick img (full (shape0 img) (shape1 img) 0)
                                  (pickA c) (tolA c)) (pickB c) (tolB c)) as [E0 E1].
  destruct (add_pick_shape img (full (shape0 img) (shape1 img) 0) (pickA c) (tolA c))
    as [F0 F1].
  rewrite E0, E1, F0, F1. split; reflexivity.
Qed.

Lemma feathered_shape (c : ChromaConfig) (m : mask) :
  shape0 (feathered c m) = shape0 m /\ shape1 (feathered c m) = shape1 m.
Proof. unfold feathered. destruct (3 <=? _); split; reflexivity. Qed.

Lemma build_alpha_mask_shape (c : ChromaConfig) (img : image) :
  shape0 (build_alpha_mask c img) = shape0 img /\
  shape1 (build_alpha_mask c img) = shape1 img.
Proof.
  unfold build_alpha_mask. cbn [map_nd shape0 shape1].
  destruct (feathered_shape c (background c img)) as [E0 E1].
  destruct (background_shape c img) as [F0 F1].
  rewrite E0, E1, F0, F1. split; reflexivity.
Qed.

(** Whatever the blur returns, the alpha is an 8-bit value. *)
Lemma build_alpha_mask_u8 (c : ChromaConfig) (img : image) :
  all_items is_u8 (build_alpha_mask c img).
Proof.
  intros i j _ _. unfold build_alpha_mask, is_u8, cv_subtract. cbn [map_nd item]. lia.
Qed.

Context {laws : BlurLaws cv}.

Lemma feathered_mono (c : ChromaConfig) (m m' : mask) :
  mask_le m m' -> mask_le (feathered c m) (feathered c m').
Proof.
  intros Hle. unfold feathered. destruct (3 <=? _); [| exact Hle].
  destruct Hle as (H0 & H1 & Hle).
  repeat split; cbn [GaussianBlur shape0 shape1 item]; try assumption.
  intros i j Hi Hj. apply blur_monotone; [repeat split; assumption | assumption ..].
Qed.

(** C6. In reference-colour mode, raising [tolA] with everything else
    equal only grows the background region, also after feathering, and
    the alpha mask only shrinks, pixel by pixel. *)
Theorem build_alpha_mask_monotone (c : ChromaConfig) (t' : Z) (img : image) :
  use_hsv c = false -> tolA c <= t' ->
  mask_le (background c img) (background (with_tolA c t') img) /\
  mask_le (feathered c (background c img))
          (feathered (with_tolA c t') (background (with_tolA c t') img)) /\
  mask_le (build_alpha_mask (with_tolA c t') img) (build_alpha_mask c img).
Proof.
  intros Hh Ht.
  assert (Hb : mask_le (background c img) (background (with_tolA c t') img)).
  { unfold background. cbn [with_tolA use_hsv pickA pickB tolA tolB]. rewrite Hh.
    apply add_pick_mono; [| lia].
    apply add_pick_mono; [apply mask_le_refl | exact Ht]. }
  assert (Hf : mask_le (feathered c (background c img))
                 (feathered (with_tolA c t') (background (with_tolA c t') img))).
  { apply (feathered_mono c) in Hb. exact Hb. }
  split; [exact Hb |]. split; [exact Hf |].
  destruct Hf as (H0 & H1 & Hle).
  unfold build_alpha_mask. repeat split; cbn [map_nd shape0 shape1 item].
  - symmetry. exact H0.
  - symmetry. exact H1.
  - intros i j Hi Hj. rewrite <- H0 in Hi. rewrite <- H1 in Hj.
    specialize (Hle i j Hi Hj). unfold cv_subtract. lia.
Qed.

Lemma background_no_picks (c : ChromaConfig) (img : image) :
  use_hsv c = false -> pickA c = None -> pickB c = None ->
  background c img = full (shape0 img) (shape1 img) 0.
Proof.
  intros Hh Ha Hb. unfold background. rewrite Hh, Ha, Hb. reflexivity.
Qed.

(** C9. In reference-colour mode with both reference colours unset, the
    alpha mask has the shape of the frame and is 255 at every pixel, for
    every feather. *)
Theorem build_alpha_mask_no_picks (c : ChromaConfig) (img : image) :
  use_hsv c = false -> pickA c = None -> pickB c = None ->
  shape0 (build_alpha_mask c img) = shape0 img /\
  shape1 (build_alpha_mask c img) = shape1 img /\
  all_items (fun v => v = 255) (build_alpha_mask c img).
Proof.
  intros Hh Ha Hb.
  destruct (build_alpha_mask_shape c img) as [E0 E1].
  split; [exact E0 |]. split; [exact E1 |].
  intros i j Hi Hj. rewrite E0 in Hi. rewrite E1 in Hj.
  unfold build_alpha_mask. cbn [map_nd item].
  rewrite (background_no_picks c img Hh Ha Hb).
  assert (Hz : item (feathered c (full (shape0 img) (shape1 img) 0)) i j = 0).
  { unfold feathered. destruct (3 <=? _); [| reflexivity].
    cbn [GaussianBlur item]. apply blur_zero; [| exact Hi | exact Hj].
    intros a b _ _. reflexivity. }
  rewrite Hz. reflexivity.
Qed.

End ChromaProperties.

(** ** The box blur is a blur in the sense of [BlurLaws] *)

Lemma sum_list_map_le {A} (f g : A -> Z) (l : list A) :
  (forall d, In d l -> f d <= g d) ->
  Plain.sum_list (map f l) <= Plain.sum_list (map g l).
Proof.
  unfold Plain.sum_list.
  induction l as [| d l IH]; intros H; cbn [map fold_right].
  - lia.
  - pose proof (H d (or_introl eq_refl)).
    assert (fold_right Z.add 0 (map f l) <= fold_right Z.add 0 (map g l)).
    { apply IH. intros e He. apply H. right. exact He. }
    lia.
Qed.

Lemma sum_list_map_zero {A} (f : A -> Z) (l : list A) :
  (forall d, In d l -> f d = 0) -> Plain.sum_list (map f l) = 0.
Proof.
  unfold Plain.sum_list.
  induction l as [| d l IH]; intros H; cbn [map fold_right].
  - reflexivity.
  - rewrite (H d (or_introl eq_refl)), IH; [reflexivity |].
    intros e He. apply H. right. exact He.
Qed.

Lemma inside_lt (n : nat) (z : Z) : (0 < n)%nat -> (Plain.inside n z < n)%nat.
Proof. intros Hn. unfold Plain.inside. lia. Qed.

Lemma plain_blur_laws : BlurLaws Plain.cv.
Proof.
  split; cbn [blur_px Plain.cv]; unfold Plain.box_blur, Plain.window_sum.
  - intros k m1 m2 i j (H0 & H1 & Hle) Hi Hj.
    assert (Hs : Plain.sum_list
                   (map (fun d => item m1 (Plain.inside (shape0 m1) (Z.of_nat i + fst d))
                                          (Plain.inside (shape1 m1) (Z.of_nat j + snd d)))
                        (list_prod (Plain.offsets k) (Plain.offsets k)))
                 <= Plain.sum_list
                   (map (fun d => item m2 (Plain.inside (shape0 m2) (Z.of_nat i + fst d))
                                          (Plain.inside (shape1 m2) (Z.of_nat j + snd d)))
                        (list_prod (Plain.offsets k) (Plain.offsets k)))).
    { apply sum_list_map_le. intros d _. rewrite <- H0, <- H1.
      apply Hle; apply inside_lt; lia. }
    destruct (Z.eq_dec (k * k) 0) as [E | E].
    + rewrite E, !Z.div_0_r. lia.
    + apply Z.div_le_mono; [nia | exact Hs].
  - intros k m i j Hz Hi Hj.
    rewrite sum_list_map_zero; [reflexivity |].
    intros d _. apply Hz; apply inside_lt; lia.
Qed.

Lemma build_alpha_mask_monotone_witness :
  let c := mk_chroma true (Some (0, 255, 0)) 10 (Some (0, 0, 255)) 30 false
                     35 85 40 255 40 255 3 in
  let img := Plain.grid 4 4 in
  use_hsv c = false /\ tolA c <= 300 /\
  mask_le (@background Plain.cv c img) (@background Plain.cv (with_tolA c 300) img) /\
  mask_le (@feathered Plain.cv c (@background Plain.cv c img))
          (@feathered Plain.cv (with_tolA c 300)
             (@background Plain.cv (with_tolA c 300) img)) /\
  mask_le (@build_alpha_mask Plain.cv (with_tolA c 300) img)
          (@build_alpha_mask Plain.cv c img).
Proof.
  cbv zeta. split; [reflexivity |]. split; [cbn; lia |].
  apply (@build_alpha_mask_monotone Plain.cv plain_blur_laws
           (mk_chroma true (Some (0, 255, 0)) 10 (Some (0, 0, 255)) 30 false
              35 85 40 255 40 255 3) 300 (Plain.grid 4 4)).
  - reflexivity.
  - cbn. lia.
Defined.

Lemma build_alpha_mask_no_picks_witness :
  let c := Plain.default_chroma in
  let img := Plain.grid 4 4 in
  use_hsv c = false /\ pickA c = None /\ pickB c = None /\
  shape0 (@build_alpha_mask Plain.cv c img) = shape0 img /\
  shape1 (@build_alpha_mask Plain.cv c img) = shape1 img /\
  all_items (fun v => v = 255) (@build_alpha_mask Plain.cv c img).
Proof.
  cbv zeta. repeat (split; [reflexivity |]).
  apply (@build_alpha_mask_no_picks Plain.cv plain_blur_laws
           Plain.default_chroma (Plain.grid 4 4)); reflexivity.
Defined.

(** The masks of the witness of C6 on the 4 by 4 grid frame, whose pixel
    at [i, j] is [(i, j, 0)], for the picks green and blue. *)
Example background_grows :
  let c := mk_chroma true (Some (0, 255, 0)) 10 (Some (0, 0, 255)) 30 false
                     35 85 40 255 40 255 0 in
  tolist (@background Plain.cv c (Plain.grid 2 2)) = [[0; 0]; [0; 0]] /\
  tolist (@background Plain.cv (with_tolA c 255) (Plain.grid 2 2))
    = [[255; 255]; [0; 255]].
Proof. cbv zeta. split; vm_compute; reflexivity. Qed.

(** ** C7: the circular mask *)

Lemma Q2R_inject_Z (z : Z) : Q2R (inject_Z z) = IZR z.
Proof. unfold Q2R, inject_Z. cbn. lra. Qed.

Lemma Q2R_half (z : Z) : Q2R (inject_Z z / 2) = (IZR z / 2)%R.
Proof.
  rewrite Qreals.Q2R_div by discriminate.
  rewrite Q2R_inject_Z. unfold Q2R at 1. cbn. lra.
Qed.

Lemma Q2R_offset (size : Z) (x : nat) :
  Q2R (inject_Z (Z.of_nat x) - inject_Z (size - 1) / 2)
  = (IZR (Z.of_nat x) - (IZR size - 1) / 2)%R.
Proof.
  rewrite Qreals.Q2R_minus, Q2R_half, Q2R_inject_Z, minus_IZR. reflexivity.
Qed.

(** The exact test is the comparison of the real square root. *)
Lemma sqrt_le_real (v r : Q) :
  (0 <= Q2R v)%R -> (sqrt_le v r = true <-> (sqrt (Q2R v) <= Q2R r)%R).
Proof.
  intros Hv. unfold sqrt_le. rewrite andb_true_iff, !Qle_bool_iff. split.
  - intros [Hr Hle]. apply Qreals.Qle_Rle in Hr, Hle.
    rewrite Qreals.Q2R_mult in Hle. change (Q2R 0) with (0 * / 1)%R in Hr.
    assert (0 <= Q2R r)%R by lra.
    rewrite <- (sqrt_square (Q2R r)) by assumption.
    apply sqrt_le_1_alt. exact Hle.
  - intros Hs. pose proof (sqrt_pos (Q2R v)) as Hp.
    pose proof (sqrt_sqrt (Q2R v) Hv) as Hq.
    split; apply Qreals.Rle_Qle.
    + change (Q2R 0) with (0 * / 1)%R. lra.
    + rewrite Qreals.Q2R_mult. nra.
Qed.

(** C7. For a positive size the circular mask is size by size, and at
    every pixel it is 255 if the Euclidean distance from [(x, y)] to the
    centre [((size - 1) / 2, (size - 1) / 2)] is at most [size / 2], and 0
    otherwise. *)
Theorem circle_alpha_mask_spec (size : Z) :
  0 < size ->
  shape0 (circle_alpha_mask size) = Z.to_nat size /\
  shape1 (circle_alpha_mask size) = Z.to_nat size /\
  forall y x, (y < Z.to_nat size)%nat -> (x < Z.to_nat size)%nat ->
    let c := ((IZR size - 1) / 2)%R in
    let dist := sqrt ((IZR (Z.of_nat x) - c) * (IZR (Z.of_nat x) - c)
                      + (IZR (Z.of_nat y) - c) * (IZR (Z.of_nat y) - c))%R in
    (item (circle_alpha_mask size) y x = 255 <-> (dist <= IZR size / 2)%R) /\
    (item (circle_alpha_mask size) y x = 0 <-> ~ (dist <= IZR size / 2)%R).
Proof.
  intros Hs. split; [reflexivity |]. split; [reflexivity |].
  intros y x _ _. cbv zeta. cbn [circle_alpha_mask item]. unfold circle_px.
  set (dx := (inject_Z (Z.of_nat x) - inject_Z (size - 1) / 2)%Q).
  set (dy := (inject_Z (Z.of_nat y) - inject_Z (size - 1) / 2)%Q).
  assert (Hv : Q2R (dx * dx + dy * dy)
               = ((IZR (Z.of_nat x) - (IZR size - 1) / 2)
                  * (IZR (Z.of_nat x) - (IZR size - 1) / 2)
                  + (IZR (Z.of_nat y) - (IZR size - 1) / 2)
                    * (IZR (Z.of_nat y) - (IZR size - 1) / 2))%R).
  { rewrite Qreals.Q2R_plus, !Qreals.Q2R_mult. unfold dx, dy.
    rewrite !Q2R_offset. reflexivity. }
  assert (Hpos : (0 <= Q2R (dx * dx + dy * dy))%R).
  { rewrite Hv. apply Rplus_le_le_0_compat; apply Rle_0_sqr. }
  pose proof (sqrt_le_real (dx * dx + dy * dy) (inject_Z size / 2) Hpos) as Hiff.
  rewrite Q2R_half, Hv in Hiff.
  destruct (sqrt_le (dx * dx + dy * dy) (inject_Z size / 2)).
  - split; split; intros H; try reflexivity; try discriminate.
    + apply Hiff. reflexivity.
    + exfalso. apply H. apply Hiff. reflexivity.
  - split; split; intros H; try reflexivity; try discriminate.
    + apply Hiff in H. discriminate.
    + intros H'. apply Hiff in H'. discriminate.
Qed.

Lemma circle_alpha_mask_spec_witness :
  0 < 4 /\
  shape0 (circle_alpha_mask 4) = Z.to_nat 4 /\
  shape1 (circle_alpha_mask 4) = Z.to_nat 4 /\
  forall y x, (y < Z.to_nat 4)%nat -> (x < Z.to_nat 4)%nat ->
    let c := ((IZR 4 - 1) / 2)%R in
    let dist := sqrt ((IZR (Z.of_nat x) - c) * (IZR (Z.of_nat x) - c)
                      + (IZR (Z.of_nat y) - c) * (IZR (Z.of_nat y) - c))%R in
    (item (circle_alpha_mask 4) y x = 255 <-> (dist <= IZR 4 / 2)%R) /\
    (item (circle_alpha_mask 4) y x = 0 <-> ~ (dist <= IZR 4 / 2)%R).
Proof.
  split; [lia |]. apply (circle_alpha_mask_spec 4). lia.
Defined.

(** The masks of size 4 and 5: the corners are outside the circle. *)
Example circle_alpha_mask_4 :
  tolist (circle_alpha_mask 4)
  = [[0; 255; 255; 0]; [255; 255; 255; 255]; [255; 255; 255; 255]; [0; 255; 255; 0]].
Proof. vm_compute. reflexivity. Qed.

Example circle_alpha_mask_5 :
  tolist (circle_alpha_mask 5)
  = [[0; 255; 255; 255; 0]; [255; 255; 255; 255; 255]; [255; 255; 255; 255; 255];
     [255; 255; 255; 255; 255]; [0; 255; 255; 255; 0]].
Proof. vm_compute. reflexivity. Qed.

(** ** C2: the cover fit and the letterbox *)

(** *** The scaled sizes *)

Lemma inject_Z_pos (z : Z) : 0 < z -> (0 < inject_Z z)%Q.
Proof. intros H. change 0%Q with (inject_Z 0). rewrite <- Zlt_Qlt. exact H. Qed.

Lemma py_div_pos (a b : Z) :
  0 < a -> 0 < b ->
  exists q, py_div a b = Some q /\ (0 < q)%Q /\ (inject_Z b * q == inject_Z a)%Q.
Proof.
  intros Ha Hb. unfold py_div.
  destruct (Z.eqb_spec b 0) as [E | E]; [lia |].
  pose proof (inject_Z_pos a Ha) as Pa. pose proof (inject_Z_pos b Hb) as Pb.
  eexists. split; [reflexivity |]. split.
  - apply Qlt_shift_div_l; [assumption |]. rewrite Qmult_0_l. assumption.
  - field. intros F. rewrite F in Pb. apply (Qlt_irrefl 0). exact Pb.
Qed.

Lemma py_qmax_ge (a b : Q) : (a <= py_qmax a b)%Q /\ (b <= py_qmax a b)%Q.
Proof.
  unfold py_qmax. destruct (Qle_bool b a) eqn:E; cbn [negb].
  - apply Qle_bool_iff in E. split; [apply Qle_refl | exact E].
  - split; [| apply Qle_refl].
    destruct (Qlt_le_dec a b) as [H | H]; [apply Qlt_le_weak; exact H |].
    apply Qle_bool_iff in H. congruence.
Qed.

Lemma py_qmin_le (a b : Q) :
  (py_qmin a b <= a)%Q /\ (py_qmin a b <= b)%Q /\ (py_qmin a b = a \/ py_qmin a b = b).
Proof.
  unfold py_qmin. destruct (Qle_bool a b) eqn:E; cbn [negb].
  - apply Qle_bool_iff in E. repeat split; [apply Qle_refl | exact E | left; reflexivity].
  - repeat split; [| apply Qle_refl | right; reflexivity].
    destruct (Qlt_le_dec b a) as [H | H]; [apply Qlt_le_weak; exact H |].
    apply Qle_bool_iff in H. congruence.
Qed.

Lemma py_int_nonneg (q : Q) : (0 <= q)%Q -> py_int q = Qfloor q.
Proof. intros H. unfold py_int. apply Qle_bool_iff in H. rewrite H. reflexivity. Qed.




Lemma window_bounds (n W : Z) :
  0 <= n -> 0 < W ->
  0 <= window_x n W <= Z.min n (window_x n W + W) /\
  0 <= window_len n W <= W.
Proof.
  intros Hn HW. unfold window_len, window_x.
  pose proof (Z.div_mod (n - W) 2 ltac:(lia)).
  pose proof (Z.mod_pos_bound (n - W) 2 ltac:(lia)).
  lia.
Qed.


(** *** The buffers *)

Section FitProperties.

Context {cv : Cv2}.

Lemma resize_shape (src : image) (nw nh : Z) (ip : interpolation) :
  (0 < shape0 src)%nat -> (0 < shape1 src)%nat -> 1 <= nw -> 1 <= nh ->
  exists rs, resize src nw nh ip = Some rs /\ has_size rs nw nh.
Proof.
  intros H0 H1 Hw Hh. unfold resize, has_size.
  destruct (Nat.eqb_spec (shape0 src) 0); [lia |].
  destruct (Nat.eqb_spec (shape1 src) 0); [lia |].
  destruct (Z.leb_spec nw 0); [lia |].
  destruct (Z.leb_spec nh 0); [lia |].
  cbn [orb]. eexists. split; [reflexivity |]. cbn [shape0 shape1]. lia.
Qed.

(** Whatever the size of the resized image, also one short of the target,
    the window cut from it and padded is exactly [W] by [H]. *)
Lemma crop_pad_spec (rs : image) (W H : Z) :
  0 < W -> 0 < H ->
  exists out,
    crop_pad rs (Z.of_nat (shape1 rs)) (Z.of_nat (shape0 rs)) W H = Some out /\
    has_size out W H /\ padded_window rs out W H.
Proof.
  intros HW HH. unfold crop_pad, has_size, padded_window. cbv zeta.
  fold (window_x (Z.of_nat (shape1 rs)) W). fold (window_x (Z.of_nat (shape0 rs)) H).
  destruct (window_bounds (Z.of_nat (shape1 rs)) W ltac:(lia) HW) as (Bx & Lx).
  destruct (window_bounds (Z.of_nat (shape0 rs)) H ltac:(lia) HH) as (By & Ly).
  set (x := window_x (Z.of_nat (shape1 rs)) W) in *.
  set (y := window_x (Z.of_nat (shape0 rs)) H) in *.
  destruct (slice_inside rs y (Z.min (Z.of_nat (shape0 rs)) (y + H))
              x (Z.min (Z.of_nat (shape1 rs)) (x + W))) as (S0 & S1 & S2); try lia.
  set (out := slice rs y (Z.min (Z.of_nat (shape0 rs)) (y + H))
                x (Z.min (Z.of_nat (shape1 rs)) (x + W))) in *.
  assert (E0 : Z.of_nat (shape0 out) = window_len (Z.of_nat (shape0 rs)) H).
  { rewrite S0. unfold window_len. fold y. lia. }
  assert (E1 : Z.of_nat (shape1 out) = window_len (Z.of_nat (shape1 rs)) W).
  { rewrite S1. unfold window_len. fold x. lia. }
  rewrite <- E0, <- E1.
  destruct (Z.eqb_spec (Z.of_nat (shape0 out)) H) as [F0 | F0];
    destruct (Z.eqb_spec (Z.of_nat (shape1 out)) W) as [F1 | F1]; cbn [negb orb].
  1: { exists out. split; [reflexivity |]. split; [split; assumption |].
       intros i j Hi Hj.
       destruct (Z.ltb_spec (Z.of_nat i) (Z.of_nat (shape0 out))); [| lia].
       destruct (Z.ltb_spec (Z.of_nat j) (Z.of_nat (shape1 out))); [| lia].
       cbn [andb]. apply S2. }
  all: unfold np_zeros;
    destruct (Z.ltb_spec H 0); [lia |]; destruct (Z.ltb_spec W 0); [lia |];
    cbn [orb bind]; unfold assign_slice; cbn [full shape0 shape1 item];
    rewrite !slice_index_inside by lia; rewrite !Nat2Z.id;
    cbn [Z.to_nat]; rewrite !Nat.sub_0_r, !broadcasts_same; cbn [andb];
    eexists; (split; [reflexivity |]); cbn [shape0 shape1 item];
    (split; [split; lia |]);
    intros i j Hi Hj; cbn [Nat.leb andb];
    destruct (Nat.ltb_spec i (shape0 out)); destruct (Nat.ltb_spec j (shape1 out));
    destruct (Z.ltb_spec (Z.of_nat i) (Z.of_nat (shape0 out))); try lia;
    destruct (Z.ltb_spec (Z.of_nat j) (Z.of_nat (shape1 out))); try lia;
    cbn [andb]; try reflexivity;
    rewrite !Nat.sub_0_r, !bidx_small by assumption; apply S2.
Qed.


(** The square of the window has the side of the window. *)
Lemma window_fit_size (disp : image) (target : Z) :
  (0 < shape0 disp)%nat -> (0 < shape1 disp)%nat -> 0 < target ->
  exists roi, window_fit disp target = Some roi /\ has_size roi target target.
Proof.
  intros H0 H1 Ht. unfold window_fit, window_size.
  destruct (py_div_pos target (Z.max 1 (Z.of_nat (shape1 disp))) Ht ltac:(lia))
    as (sw & -> & _ & _).
  destruct (py_div_pos target (Z.max 1 (Z.of_nat (shape0 disp))) Ht ltac:(lia))
    as (sh & -> & _ & _).
  cbn [bind fst snd].
  match goal with
  | |- context [resize disp ?a ?b _] =>
      destruct (resize_shape disp a b INTER_LINEAR H0 H1) as (rs & -> & _)
  end.
  - destruct (Z.ltb_spec (Qceiling (inject_Z (Z.of_nat (shape1 disp)) * py_qmax sw sh)) 1);
      lia.
  - destruct (Z.ltb_spec (Qceiling (inject_Z (Z.of_nat (shape0 disp)) * py_qmax sw sh)) 1);
      lia.
  - cbn [bind].
    destruct (crop_pad_spec rs target target Ht Ht) as (roi & E & S & _).
    exists roi. split; assumption.
Qed.




End FitProperties.



(** The scenario of the specification: a 400 by 400 square letterboxed
    into 1920 by 1080 is scaled to 1080 by 1080 and starts at column 420. *)
Example letterbox_size_scenario :
  letterbox_size 400 400 1920 1080 = Some (1080, 1080) /\ (1920 - 1080) / 2 = 420.
Proof. split; vm_compute; reflexivity. Qed.

(** A 4 by 4 frame letterboxed into 6 by 4: one black column on each side. *)
Example letterbox_small :
  option_map tolist (@letterbox Plain.cv (Plain.solid 4 4 (7, 7, 7)) 6 4)
  = Some (repeat [black; (7, 7, 7); (7, 7, 7); (7, 7, 7); (7, 7, 7); black] 4).
Proof. vm_compute. reflexivity. Qed.

(** ** The window stage of a tick

    The masks the tick composes are 8-bit masks of one shape, so the
    composition law of C1 applies to every tick: on a frame with positive
    width and height the stage runs through, and the square, the final
    alpha and the RGBA image have the side of the window. *)

Section StageProperties.

Context {cv : Cv2}.

Lemma crop_step_positive (c : CropConfig) (frame : image) :
  (0 < shape0 frame)%nat -> (0 < shape1 frame)%nat ->
  (0 < shape0 (crop_step c frame))%nat /\ (0 < shape1 (crop_step c frame))%nat.
Proof.
  intros H0 H1. destruct c as [[|] [[[[x y] w] h] |]]; try (split; assumption).
  destruct (crop_step_spec frame x y w h H0 H1)
    as (x2 & y2 & w2 & h2 & _ & _ & _ & Hw & Hh & _ & _ & S0 & S1 & _).
  cbv zeta in S0, S1. lia.
Qed.

Lemma circle_alpha_mask_u8 (size : Z) : all_items is_u8 (circle_alpha_mask size).
Proof.
  intros i j _ _. cbn [circle_alpha_mask item]. unfold circle_px, is_u8.
  destruct (sqrt_le _ _); lia.
Qed.

Lemma full_u8 (h w : nat) : all_items is_u8 (full h w 255).
Proof. intros i j _ _. cbn. unfold is_u8. lia. Qed.

Lemma window_stage_runs (s : Window) (frame : image) :
  (0 < shape0 frame)%nat -> (0 < shape1 frame)%nat ->
  let target := Z.max 1 (win_width s) in
  exists roi final argb,
    window_stage s frame = Some (roi, final, argb) /\
    has_size roi target target /\ has_size final target target /\
    has_size argb target target /\ all_items is_u8 final.
Proof.
  intros H0 H1. cbv zeta. unfold window_stage.
  destruct (crop_step_positive (crop s) frame H0 H1) as [C0 C1].
  set (src := crop_step (crop s) frame) in *.
  set (disp := if window_mirror (state s) then flip_h src else src).
  assert (D : (0 < shape0 disp)%nat /\ (0 < shape1 disp)%nat).
  { unfold disp. destruct (window_mirror (state s)); cbn [flip_h shape0 shape1];
      split; assumption. }
  destruct (window_fit_size disp (Z.max 1 (win_width s)) (proj1 D) (proj2 D) ltac:(lia))
    as (roi & -> & R0 & R1).
  cbn [bind].
  set (alpha := if chroma_enabled (chroma s) then build_alpha_mask (chroma s) roi
                else full (shape0 roi) (shape1 roi) 255).
  set (shape_mask := if window_shape_circle (state s)
                     then circle_alpha_mask (Z.of_nat (shape1 roi))
                     else full (shape0 roi) (shape1 roi) 255).
  assert (A : shape0 alpha = shape0 roi /\ shape1 alpha = shape1 roi /\
              all_items is_u8 alpha).
  { unfold alpha. destruct (chroma_enabled (chroma s)).
    - destruct (build_alpha_mask_shape (chroma s) roi) as [E0 E1].
      split; [exact E0 |]. split; [exact E1 |]. apply build_alpha_mask_u8.
    - split; [reflexivity |]. split; [reflexivity |]. apply full_u8. }
  assert (M : shape0 shape_mask = shape0 roi /\ shape1 shape_mask = shape1 roi /\
              all_items is_u8 shape_mask).
  { unfold shape_mask. destruct (window_shape_circle (state s)).
    - cbn [circle_alpha_mask shape0 shape1]. rewrite Nat2Z.id.
      split; [lia |]. split; [reflexivity |].
      apply circle_alpha_mask_u8.
    - split; [reflexivity |]. split; [reflexivity |]. apply full_u8. }
  destruct A as (A0 & A1 & Au). destruct M as (M0 & M1 & Mu).
  destruct (compose_masks_some alpha shape_mask) as (final & -> & F0 & F1 & Fl);
    try congruence; try assumption.
  cbn [bind]. unfold zip_with.
  rewrite (proj2 (Nat.eqb_eq (shape0 roi) (shape0 final))) by congruence.
  rewrite (proj2 (Nat.eqb_eq (shape1 roi) (shape1 final))) by congruence.
  cbn [andb bind]. do 3 eexists. split; [reflexivity |].
  unfold has_size. cbn [shape0 shape1].
  split; [split; assumption |]. split; [split; lia |]. split; [split; assumption |].
  intros i j Hi Hj. apply (Fl i j Hi Hj).
Qed.

(** A tick with a frame of positive width and height stores the frame and
    a window image of the side of the window. *)
Lemma on_tick_frame (s : Window) (frame : image) (send_ok : bool) :
  cap_opened s = true -> (0 < shape0 frame)%nat -> (0 < shape1 frame)%nat ->
  let s' := on_tick s true (Some frame) send_ok in
  last_frame_bgr s' = Some frame /\
  exists argb, current_qpix s' = Some argb /\
               has_size argb (Z.max 1 (win_width s)) (Z.max 1 (win_width s)).
Proof.
  intros Hc H0 H1. cbv zeta. unfold on_tick. rewrite Hc. cbn [negb].
  destruct (window_stage_runs (with_last_frame (recover s) frame) frame H0 H1)
    as (roi & final & argb & -> & _ & _ & Sa & _).
  assert (Ew : win_width (with_last_frame (recover s) frame) = win_width s).
  { unfold recover. destruct (no_frame_count s =? 0); reflexivity. }
  rewrite Ew in Sa.
  destruct (vcam _).
  - destruct (vcam_stage _ roi) as [out |].
    + destruct send_ok.
      * split; [reflexivity |]. exists argb. split; [reflexivity | exact Sa].
      * unfold stop_vcam. destruct (vcam _); cbn;
          (split; [reflexivity |]; exists argb; split; [reflexivity | exact Sa]).
    + split; [reflexivity |]. exists argb. split; [reflexivity | exact Sa].
  - split; [reflexivity |]. exists argb. split; [reflexivity | exact Sa].
Qed.

End StageProperties.

(** ** The definitions at work *)

(** A resized image one row and one column short of a 3 by 3 target is
    padded with zeros at the bottom and right. *)
Example crop_pad_short :
  option_map tolist (crop_pad (Plain.solid 2 2 (9, 9, 9)) 2 2 3 3)
  = Some [[(9, 9, 9); (9, 9, 9); black];
          [(9, 9, 9); (9, 9, 9); black];
          [black; black; black]].
Proof. vm_compute. reflexivity. Qed.

(** A 4 by 6 frame in a round window of side 4, without chroma key: the
    final alpha is the circle, and the frame is kept as the last frame. *)
Example on_tick_round_window :
  let s := mk_window true 3 None None false [] [] (mk_crop false None)
             Plain.default_chroma Plain.default_state 4 1920 1080 in
  let s' := @on_tick Plain.cv s true (Some (Plain.grid 4 6)) true in
  no_frame_count s' = 0 /\ log s' = [InfoRecovered 3] /\
  option_map (fun a => tolist (map_nd snd a)) (current_qpix s')
  = Some [[0; 255; 255; 0]; [255; 255; 255; 255]; [255; 255; 255; 255]; [0; 255; 255; 0]] /\
  option_map (fun a => tolist (map_nd fst a)) (current_qpix s')
  = Some [[(0, 1, 0); (0, 2, 0); (0, 3, 0); (0, 4, 0)];
          [(0, 1, 1); (0, 2, 1); (0, 3, 1); (0, 4, 1)];
          [(0, 1, 2); (0, 2, 2); (0, 3, 2); (0, 4, 2)];
          [(0, 1, 3); (0, 2, 3); (0, 3, 3); (0, 4, 3)]].
Proof. cbv zeta. repeat split; vm_compute; reflexivity. Qed.

(** The same frame sent to a 6 by 4 virtual camera through the letterbox:
    the square of side 4 between two black columns. *)
Example on_tick_letterbox :
  let st := mk_state false false 360 true false in
  let s := mk_window true 0 None None true [] [] (mk_crop false None)
             Plain.default_chroma st 4 6 4 in
  let s' := @on_tick Plain.cv s true (Some (Plain.grid 4 6)) true in
  map (fun out => map (map (fun p => negb (fst (fst p) =? 0) || negb (snd (fst p) =? 0)))
                      (tolist out)) (sent s')
  = [repeat [false; true; true; true; true; false] 4].
Proof. cbv zeta. vm_compute. reflexivity. Qed.

(** * Further properties of the pipeline *)

(** ** The kernel of the feathering *)

Lemma kernel_size_cases (f : Z) :
  (f <= 0 -> kernel_size f = 0) /\
  (0 < f -> kernel_size f mod 2 = 1 /\ f <= kernel_size f <= f + 1).
Proof.
  unfold kernel_size.
  pose proof (Z.mod_pos_bound (Z.max 0 f) 2 ltac:(lia)) as Hm.
  pose proof (Z.div_mod (Z.max 0 f) 2 ltac:(lia)) as Hd.
  destruct (Z.eqb_spec (Z.max 0 f mod 2) 0) as [E | E].
  - destruct (Z.ltb_spec 0 (Z.max 0 f)) as [P | P].
    + split; [lia |]. intros Hf. split; [| lia].
      replace (Z.max 0 f + 1) with (1 + (Z.max 0 f / 2) * 2) by lia.
      rewrite Z.mod_add by lia. reflexivity.
    + split; [reflexivity | lia].
  - split; [intros Hf; replace (Z.max 0 f) with 0 in E by lia; cbn in E; lia |].
    intros Hf. lia.
Qed.

(** X1. The blur runs exactly when the feather is at least 2, and then
    with an odd kernel size of at least 3: the feather itself when it is
    odd, the next integer when it is even.  Otherwise the mask is left as it
    is. *)
Theorem feathered_kernel {cv : Cv2} (c : ChromaConfig) (m : mask) :
  (feather c < 2 -> feathered c m = m) /\
  (2 <= feather c ->
   exists k, feathered c m = GaussianBlur k m /\
             k mod 2 = 1 /\ 3 <= k /\ feather c <= k <= feather c + 1).
Proof.
  unfold feathered.
  destruct (kernel_size_cases (feather c)) as [Hn Hp].
  split.
  - intros Hf. destruct (Z.leb_spec 3 (kernel_size (feather c))) as [H3 | H3]; [| reflexivity].
    destruct (Z_le_gt_dec (feather c) 0) as [Hz | Hz].
    + rewrite (Hn Hz) in H3. lia.
    + destruct (Hp ltac:(lia)) as [Ho Hb].
      assert (E : feather c = 1) by lia. rewrite E in *.
      assert (kernel_size 1 = 1) by reflexivity. lia.
  - intros Hf. destruct (Hp ltac:(lia)) as [Ho Hb].
    assert (H3 : 3 <= kernel_size (feather c)).
    { destruct (Z.eq_dec (kernel_size (feather c)) 2) as [E | E]; [| lia].
      rewrite E in Ho. cbn in Ho. lia. }
    destruct (Z.leb_spec 3 (kernel_size (feather c))); [| lia].
    exists (kernel_size (feather c)). repeat split; try assumption; lia.
Qed.

(** ** The composition as an operation on 8-bit values *)

(** X2. On 8-bit values the composition is commutative, has 255 as its
    neutral element, is monotone in each argument, and never exceeds either
    argument: composing can only make a pixel more transparent. *)
Theorem compose_px_algebra (a a' s : Z) :
  is_u8 a -> is_u8 a' -> is_u8 s -> a <= a' ->
  compose_px a s = compose_px s a /\
  compose_px a 255 = a /\ compose_px 255 s = s /\
  compose_px a s <= compose_px a' s /\
  compose_px a s <= a /\ compose_px a s <= s.
Proof.
  intros Ha Ha' Hs Hle.
  assert (H255 : is_u8 255) by (unfold is_u8; lia).
  rewrite !compose_px_exact by assumption.
  unfold is_u8 in *.
  repeat split.
  - rewrite Z.mul_comm. reflexivity.
  - apply Z.div_mul. lia.
  - rewrite Z.mul_comm. apply Z.div_mul. lia.
  - apply Z.div_le_mono; nia.
  - apply Z.div_le_upper_bound; nia.
  - apply Z.div_le_upper_bound; nia.
Qed.

Lemma compose_px_algebra_witness :
  is_u8 100 /\ is_u8 200 /\ is_u8 128 /\ 100 <= 200 /\
  compose_px 100 128 = compose_px 128 100 /\
  compose_px 100 255 = 100 /\ compose_px 255 128 = 128 /\
  compose_px 100 128 <= compose_px 200 128 /\
  compose_px 100 128 <= 100 /\ compose_px 100 128 <= 128.
Proof.
  assert (H1 : is_u8 100) by (unfold is_u8; lia).
  assert (H2 : is_u8 200) by (unfold is_u8; lia).
  assert (H3 : is_u8 128) by (unfold is_u8; lia).
  assert (H4 : 100 <= 200) by lia.
  repeat (split; [assumption |]).
  exact (compose_px_algebra 100 200 128 H1 H2 H3 H4).
Defined.

(** ** The symmetry of the circle *)

Lemma sqrt_le_comp (v v' r : Q) : (v == v')%Q -> sqrt_le v r = sqrt_le v' r.
Proof.
  intros E. unfold sqrt_le. f_equal.
  destruct (Qle_bool v (r * r)) eqn:A; destruct (Qle_bool v' (r * r)) eqn:B;
    try reflexivity.
  - apply Qle_bool_iff in A. rewrite E in A. apply Qle_bool_iff in A. congruence.
  - apply Qle_bool_iff in B. rewrite <- E in B. apply Qle_bool_iff in B. congruence.
Qed.

(** X3. The circular mask is symmetric: it is unchanged by the horizontal
    mirror, by the vertical mirror and by the exchange of rows and columns,
    hence by a quarter turn. *)
Theorem circle_alpha_mask_symmetric (size : Z) (y x : nat) :
  (y < Z.to_nat size)%nat -> (x < Z.to_nat size)%nat ->
  let m := circle_alpha_mask size in
  item m y (Z.to_nat size - 1 - x) = item m y x /\
  item m (Z.to_nat size - 1 - y) x = item m y x /\
  item m x y = item m y x /\
  item m x (Z.to_nat size - 1 - y) = item m y x.
Proof.
  intros Hy Hx. cbv zeta. cbn [circle_alpha_mask item].
  assert (Hm : forall n, (n < Z.to_nat size)%nat ->
             (inject_Z (Z.of_nat (Z.to_nat size - 1 - n)) - inject_Z (size - 1) / 2
              == - (inject_Z (Z.of_nat n) - inject_Z (size - 1) / 2))%Q).
  { intros n Hn.
    replace (Z.of_nat (Z.to_nat size - 1 - n)) with (size - 1 - Z.of_nat n) by lia.
    unfold Z.sub. rewrite !inject_Z_plus, !inject_Z_opp. field. }
  unfold circle_px. cbv zeta.
  pose proof (Hm x Hx) as Mx. pose proof (Hm y Hy) as My.
  set (ox := (inject_Z (Z.of_nat x) - inject_Z (size - 1) / 2)%Q) in *.
  set (oy := (inject_Z (Z.of_nat y) - inject_Z (size - 1) / 2)%Q) in *.
  set (mx := (inject_Z (Z.of_nat (Z.to_nat size - 1 - x)) - inject_Z (size - 1) / 2)%Q) in *.
  set (my := (inject_Z (Z.of_nat (Z.to_nat size - 1 - y)) - inject_Z (size - 1) / 2)%Q) in *.
  assert (E1 : (mx * mx + oy * oy == ox * ox + oy * oy)%Q) by (rewrite Mx; ring).
  assert (E2 : (ox * ox + my * my == ox * ox + oy * oy)%Q) by (rewrite My; ring).
  assert (E3 : (oy * oy + ox * ox == ox * ox + oy * oy)%Q) by ring.
  assert (E4 : (my * my + ox * ox == ox * ox + oy * oy)%Q) by (rewrite My; ring).
  rewrite (sqrt_le_comp _ _ _ E1), (sqrt_le_comp _ _ _ E2),
    (sqrt_le_comp _ _ _ E3), (sqrt_le_comp _ _ _ E4).
  repeat split.
Qed.

Lemma circle_alpha_mask_symmetric_witness :
  (1 < Z.to_nat 5)%nat /\ (0 < Z.to_nat 5)%nat /\
  let m := circle_alpha_mask 5 in
  item m 1 (Z.to_nat 5 - 1 - 0) = item m 1 0 /\
  item m (Z.to_nat 5 - 1 - 1) 0 = item m 1 0 /\
  item m 0 1 = item m 1 0 /\
  item m 0 (Z.to_nat 5 - 1 - 1) = item m 1 0.
Proof.
  split; [cbn; lia |]. split; [cbn; lia |].
  apply (circle_alpha_mask_symmetric 5 1 0); cbn; lia.
Defined.

(** ** The chroma mask on its own *)

Lemma threshold_values (v : f32) (tol : Z) : threshold v tol = 0 \/ threshold v tol = 255.
Proof. unfold threshold. destruct (f32_le v tol); [right | left]; reflexivity. Qed.

Section ChromaFurther.

Context {cv : Cv2}.

Lemma add_pick_values (img : image) (m : mask) (pick : option (Z * Z * Z)) (tol : Z)
    (i j : nat) :
  (item m i j = 0 \/ item m i j = 255) ->
  item (add_pick img m pick tol) i j = 0 \/ item (add_pick img m pick tol) i j = 255.
Proof.
  intros Hm. unfold add_pick. destruct pick as [[[r g] b] |]; [| exact Hm].
  cbn [item].
  match goal with
  | |- context [threshold ?v ?t] => destruct (threshold_values v t) as [E | E]; rewrite E
  end; clear E; destruct Hm as [H | H]; rewrite H;
    first [left; reflexivity | right; reflexivity].
Qed.

Lemma background_values (c : ChromaConfig) (img : image) (i j : nat) :
  item (background c img) i j = 0 \/ item (background c img) i j = 255.
Proof.
  unfold background. destruct (use_hsv c).
  - cbn [map_nd item]. unfold in_range.
    destruct (bgr2hsv (item img i j)) as [[p0 p1] p2].
    match goal with |- context [if ?b then _ else _] => destruct b end; [right | left];
      reflexivity.
  - apply add_pick_values, add_pick_values. left. reflexivity.
Qed.

(** X4. Without feathering (a feather below 2) the alpha mask is binary:
    every pixel is 0 or 255, in the HSV mode and in the reference-colour
    mode alike. *)
Theorem build_alpha_mask_binary (c : ChromaConfig) (img : image) (i j : nat) :
  feather c < 2 ->
  item (build_alpha_mask c img) i j = 0 \/ item (build_alpha_mask c img) i j = 255.
Proof.
  intros Hf. unfold build_alpha_mask. cbn [map_nd item].
  rewrite (proj1 (feathered_kernel c (background c img)) Hf).
  destruct (background_values c img i j) as [E | E]; rewrite E; [right | left]; reflexivity.
Qed.

Lemma i16_u8 (z : Z) : is_u8 z -> i16 z = z.
Proof. unfold is_u8, i16. intros Hz. rewrite Z.mod_small by lia. lia. Qed.

Lemma sq_dist_same (b g r : Z) :
  is_u8 b -> is_u8 g -> is_u8 r -> sq_dist (b, g, r) (i16 b, i16 g, i16 r) = 0.
Proof.
  intros Hb Hg Hr. unfold sq_dist.
  rewrite (i16_u8 b Hb), (i16_u8 g Hg), (i16_u8 r Hr), !Z.sub_diag. reflexivity.
Qed.

Lemma add_pick_upper (img : image) (m : mask) (pick : option (Z * Z * Z)) (tol : Z)
    (i j : nat) :
  item m i j = 255 -> item (add_pick img m pick tol) i j = 255.
Proof.
  intros Hm. unfold add_pick. destruct pick as [[[r g] b] |]; [| exact Hm].
  cbn [item]. rewrite Hm.
  match goal with
  | |- context [threshold ?v ?t] => destruct (threshold_values v t) as [E | E]; rewrite E
  end; reflexivity.
Qed.

Lemma add_pick_hit (img : image) (m : mask) (r g b tol : Z) (i j : nat) :
  sqrt32 0 = Fin 0 -> is_u8 r -> is_u8 g -> is_u8 b -> 0 <= tol ->
  (item m i j = 0 \/ item m i j = 255) ->
  item img i j = (b, g, r) ->
  item (add_pick img m (Some (r, g, b)) tol) i j = 255.
Proof.
  intros H0 Hr Hg Hb Ht Hm Hp. unfold add_pick. cbn [item].
  rewrite Hp. unfold pixel_dist. rewrite (sq_dist_same b g r Hb Hg Hr), H0.
  cbn [nan_to_num]. change (Fin 0) with (Fin (inject_Z 0)).
  rewrite (threshold_const 0 tol).
  destruct (Z.leb_spec 0 tol); lia.
Qed.

Lemma pixel_keyed_out (c : ChromaConfig) (img : image) (r g b : Z) (i j : nat) :
  sqrt32 0 = Fin 0 ->
  use_hsv c = false -> feather c < 2 ->
  is_u8 r -> is_u8 g -> is_u8 b ->
  (pickA c = Some (r, g, b) /\ 0 <= tolA c) \/ (pickB c = Some (r, g, b) /\ 0 <= tolB c) ->
  item img i j = (b, g, r) ->
  item (build_alpha_mask c img) i j = 0.
Proof.
  intros H0 Hh Hf Hr Hg Hb Hpick Hp.
  unfold build_alpha_mask. cbn [map_nd item].
  rewrite (proj1 (feathered_kernel c (background c img)) Hf).
  assert (E : item (background c img) i j = 255).
  { unfold background. rewrite Hh. destruct Hpick as [[Ea Ht] | [Eb Ht]].
    - apply add_pick_upper. rewrite Ea.
      apply add_pick_hit; try assumption. left. reflexivity.
    - rewrite Eb. apply add_pick_hit; try assumption.
      apply add_pick_values. left. reflexivity. }
  rewrite E. reflexivity.
Qed.

(** X5. In reference-colour mode without feathering, a pixel whose colour
    is exactly a picked colour is keyed out for every tolerance from 0 up:
    its alpha is 0, whatever the other pick is. *)
Theorem picked_colour_keyed_out (c : ChromaConfig) (img : image) (r g b : Z) (i j : nat) :
  sqrt32 0 = Fin 0 ->
  use_hsv c = false -> feather c < 2 ->
  is_u8 r -> is_u8 g -> is_u8 b ->
  (pickA c = Some (r, g, b) /\ 0 <= tolA c) \/ (pickB c = Some (r, g, b) /\ 0 <= tolB c) ->
  item img i j = (b, g, r) ->
  item (build_alpha_mask c img) i j = 0.
Proof. exact (pixel_keyed_out c img r g b i j). Qed.

End ChromaFurther.

Lemma build_alpha_mask_binary_witness :
  let c := mk_chroma true (Some (0, 255, 0)) 10 None 30 false 35 85 40 255 40 255 1 in
  feather c < 2 /\
  (item (@build_alpha_mask Plain.cv c (Plain.grid 3 3)) 1 2 = 0 \/
   item (@build_alpha_mask Plain.cv c (Plain.grid 3 3)) 1 2 = 255).
Proof.
  cbv zeta. split; [cbn; lia |].
  apply (@build_alpha_mask_binary Plain.cv
           (mk_chroma true (Some (0, 255, 0)) 10 None 30 false 35 85 40 255 40 255 1)
           (Plain.grid 3 3) 1 2).
  cbn. lia.
Defined.

(** The scenario of a solid green frame with the pick green and the
    tolerance 10. *)
Lemma picked_colour_keyed_out_witness :
  let c := mk_chroma true (Some (0, 255, 0)) 10 None 30 false 35 85 40 255 40 255 0 in
  let img := Plain.solid 100 100 (0, 255, 0) in
  @sqrt32 Plain.cv 0 = Fin 0 /\ use_hsv c = false /\ feather c < 2 /\
  is_u8 0 /\ is_u8 255 /\ is_u8 0 /\
  item img 99 99 = (0, 255, 0) /\
  item (@build_alpha_mask Plain.cv c img) 99 99 = 0.
Proof.
  cbv zeta.
  assert (U0 : is_u8 0) by (unfold is_u8; lia).
  assert (U255 : is_u8 255) by (unfold is_u8; lia).
  split; [reflexivity |]. split; [reflexivity |]. split; [cbn; lia |].
  split; [exact U0 |]. split; [exact U255 |]. split; [exact U0 |].
  split; [reflexivity |].
  assert (F : 0 < 2) by lia.
  assert (T : 0 <= 10) by lia.
  exact (@picked_colour_keyed_out Plain.cv
           (mk_chroma true (Some (0, 255, 0)) 10 None 30 false 35 85 40 255 40 255 0)
           (Plain.solid 100 100 (0, 255, 0)) 0 255 0 99 99
           eq_refl eq_refl F U0 U255 U0 (or_introl (conj eq_refl T)) eq_refl).
Defined.

(** ** The window stage, pixel by pixel *)

Section StageFurther.

Context {cv : Cv2}.

Lemma stage_alpha_shape (s : Window) (roi : image) :
  shape0 (stage_alpha s roi) = shape0 roi /\ shape1 (stage_alpha s roi) = shape1 roi.
Proof.
  unfold stage_alpha. destruct (chroma_enabled (chroma s)).
  - apply build_alpha_mask_shape.
  - split; reflexivity.
Qed.

Lemma window_stage_spec (s : Window) (frame : image) :
  (0 < shape0 frame)%nat -> (0 < shape1 frame)%nat ->
  let target := Z.max 1 (win_width s) in
  exists roi final argb,
    window_stage s frame = Some (roi, final, argb) /\
    has_size roi target target /\ has_size final target target /\
    has_size argb target target /\
    forall i j,
      item final i j = compose_px (item (stage_alpha s roi) i j) (item (stage_shape s roi) i j) /\
      item argb i j = (bgr2rgb (item roi i j), item final i j).
Proof.
  intros H0 H1. cbv zeta. unfold window_stage.
  destruct (crop_step_positive (crop s) frame H0 H1) as [C0 C1].
  set (src := crop_step (crop s) frame) in *.
  set (disp := if window_mirror (state s) then flip_h src else src).
  assert (D : (0 < shape0 disp)%nat /\ (0 < shape1 disp)%nat).
  { unfold disp. destruct (window_mirror (state s)); cbn [flip_h shape0 shape1];
      split; assumption. }
  destruct (window_fit_size disp (Z.max 1 (win_width s)) (proj1 D) (proj2 D) ltac:(lia))
    as (roi & -> & R0 & R1).
  cbn [bind]. fold (stage_alpha s roi). fold (stage_shape s roi).
  destruct (stage_alpha_shape s roi) as [A0 A1].
  assert (M : shape0 (stage_shape s roi) = shape0 roi /\
              shape1 (stage_shape s roi) = shape1 roi).
  { unfold stage_shape. destruct (window_shape_circle (state s)).
    - cbn [circle_alpha_mask shape0 shape1]. rewrite Nat2Z.id. split; [lia | reflexivity].
    - split; reflexivity. }
  destruct M as [M0 M1].
  unfold compose_masks, zip_with.
  rewrite (proj2 (Nat.eqb_eq (shape0 (stage_alpha s roi)) (shape0 (stage_shape s roi))))
    by congruence.
  rewrite (proj2 (Nat.eqb_eq (shape1 (stage_alpha s roi)) (shape1 (stage_shape s roi))))
    by congruence.
  cbn [andb bind shape0 shape1].
  rewrite (proj2 (Nat.eqb_eq (shape0 roi) (shape0 (stage_alpha s roi)))) by congruence.
  rewrite (proj2 (Nat.eqb_eq (shape1 roi) (shape1 (stage_alpha s roi)))) by congruence.
  cbn [andb bind]. do 3 eexists. split; [reflexivity |].
  unfold has_size. cbn [shape0 shape1 item].
  split; [split; assumption |]. split; [split; lia |]. split; [split; assumption |].
  intros i j. split; reflexivity.
Qed.

(** X6. With the chroma key off, the alpha of the window image is exactly
    the shape mask, 255 everywhere for the square and the circle for the
    circle, and the colour of every pixel is that of the fitted square with
    blue and red exchanged. *)
Theorem window_stage_chroma_off (s : Window) (frame : image) :
  (0 < shape0 frame)%nat -> (0 < shape1 frame)%nat ->
  chroma_enabled (chroma s) = false ->
  let target := Z.max 1 (win_width s) in
  exists roi final argb,
    window_stage s frame = Some (roi, final, argb) /\
    has_size roi target target /\ has_size argb target target /\
    forall i j, (i < shape0 roi)%nat -> (j < shape1 roi)%nat ->
      item final i j =
        (if window_shape_circle (state s) then item (circle_alpha_mask target) i j else 255) /\
      item argb i j = (bgr2rgb (item roi i j), item final i j).
Proof.
  intros H0 H1 Hc. cbv zeta.
  destruct (window_stage_spec s frame H0 H1) as (roi & final & argb & E & R & F & A & Hpx).
  exists roi, final, argb. split; [exact E |]. split; [exact R |]. split; [exact A |].
  intros i j Hi Hj. destruct (Hpx i j) as [Ef Ea]. split; [| exact Ea].
  rewrite Ef. unfold stage_alpha, stage_shape. rewrite Hc. cbn [full item].
  destruct R as [R0 R1].
  destruct (window_shape_circle (state s)).
  - rewrite R1.
    assert (U : is_u8 (item (circle_alpha_mask (Z.max 1 (win_width s))) i j)).
    { apply circle_alpha_mask_u8; cbn [circle_alpha_mask shape0 shape1]; lia. }
    rewrite compose_px_exact by (try exact U; unfold is_u8; lia).
    rewrite Z.mul_comm. apply Z.div_mul. lia.
  - reflexivity.
Qed.


End StageFurther.

Lemma window_stage_chroma_off_witness :
  let s := Plain.default_window in
  let frame := Plain.grid 4 6 in
  (0 < shape0 frame)%nat /\ (0 < shape1 frame)%nat /\
  chroma_enabled (chroma s) = false /\
  let target := Z.max 1 (win_width s) in
  exists roi final argb,
    @window_stage Plain.cv s frame = Some (roi, final, argb) /\
    has_size roi target target /\ has_size argb target target /\
    forall i j, (i < shape0 roi)%nat -> (j < shape1 roi)%nat ->
      item final i j =
        (if window_shape_circle (state s) then item (circle_alpha_mask target) i j else 255) /\
      item argb i j = (bgr2rgb (item roi i j), item final i j).
Proof.
  cbv zeta. split; [cbn; lia |]. split; [cbn; lia |]. split; [reflexivity |].
  apply (@window_stage_chroma_off Plain.cv Plain.default_window (Plain.grid 4 6));
    [cbn; lia | cbn; lia | reflexivity].
Defined.


(** ** What reaches the virtual camera *)

Section VcamProperties.

Context {cv : Cv2}.

Lemma assign_slice_shape {A} (dst : ndarray A) (y y2 x x2 : Z) (src out : ndarray A) :
  assign_slice dst y y2 x x2 src = Some out ->
  shape0 out = shape0 dst /\ shape1 out = shape1 dst.
Proof.
  unfold assign_slice. destruct (_ && _); [| discriminate].
  intros E. inversion E. split; reflexivity.
Qed.

Lemma crop_pad_some (rs : image) (nw nh W H : Z) (out : image) :
  0 < W -> 0 < H -> crop_pad rs nw nh W H = Some out -> has_size out W H.
Proof.
  intros HW HH. unfold crop_pad, has_size.
  set (cut := slice rs _ _ _ _).
  destruct (Z.eqb_spec (Z.of_nat (shape0 cut)) H) as [E0 | E0];
    destruct (Z.eqb_spec (Z.of_nat (shape1 cut)) W) as [E1 | E1]; cbn [negb orb].
  1: { intros E. injection E as E. rewrite <- E. split; assumption. }
  all: unfold np_zeros; destruct (Z.ltb_spec H 0); [lia |];
    destruct (Z.ltb_spec W 0); [lia |]; cbn [orb bind];
    intros E; apply assign_slice_shape in E; cbn [full shape0 shape1] in E; lia.
Qed.

Lemma option_bind_some {A B} (o : option A) (f : A -> option B) (b : B) :
  bind o f = Some b -> exists a, o = Some a /\ f a = Some b.
Proof. destruct o as [a |]; [intros E; exists a; split; [reflexivity | exact E] | discriminate]. Qed.

Lemma window_fit_some (disp roi : image) (target : Z) :
  0 < target -> window_fit disp target = Some roi -> has_size roi target target.
Proof.
  intros Ht. unfold window_fit. intros E.
  apply option_bind_some in E. destruct E as (sz & _ & E).
  apply option_bind_some in E. destruct E as (rs & _ & E).
  apply (crop_pad_some rs _ _ target target roi Ht Ht E).
Qed.

Lemma center_crop_fit_some (rgb out : image) (W H : Z) :
  0 < W -> 0 < H -> center_crop_fit rgb W H = Some out -> has_size out W H.
Proof.
  intros HW HH. unfold center_crop_fit. intros E.
  apply option_bind_some in E. destruct E as (sz & _ & E). cbv zeta in E.
  apply option_bind_some in E. destruct E as (rs & _ & E).
  apply (crop_pad_some rs _ _ W H out HW HH E).
Qed.

Lemma letterbox_some_size (rgb out : image) (W H : Z) :
  0 < W -> 0 < H -> letterbox rgb W H = Some out -> has_size out W H.
Proof.
  intros HW HH. unfold letterbox. intros E.
  apply option_bind_some in E. destruct E as (sz & _ & E). cbv zeta in E.
  apply option_bind_some in E. destruct E as (rs & _ & E).
  apply option_bind_some in E. destruct E as (z & Ez & E).
  unfold np_zeros in Ez. destruct (_ || _); [discriminate |]. inversion Ez; subst z.
  apply assign_slice_shape in E. cbn [full shape0 shape1] in E.
  unfold has_size. lia.
Qed.

Lemma vcam_stage_some (s : Window) (roi out : image) :
  0 < vcam_w s -> 0 < vcam_h s ->
  vcam_stage s roi = Some out -> has_size out (vcam_w s) (vcam_h s).
Proof.
  intros HW HH. unfold vcam_stage. destruct (vcam_fit_fill (state s)).
  - apply center_crop_fit_some; assumption.
  - apply letterbox_some_size; assumption.
Qed.


Lemma quiet_refl (s : Window) : quiet_step s s.
Proof. unfold quiet_step, same_config. repeat split; auto. exists []. reflexivity. Qed.

Lemma quiet_with_count (s s1 : Window) (n : Z) : quiet_step s s1 -> quiet_step s (with_count s1 n).
Proof. unfold quiet_step, same_config. cbn. tauto. Qed.

Lemma quiet_with_log (s s1 : Window) (e : log_event) :
  quiet_step s s1 -> quiet_step s (with_log s1 e).
Proof.
  unfold quiet_step, same_config. cbn. intros (C & V & (l & L) & S).
  split; [exact C |]. split; [exact V |]. split; [| exact S].
  exists (e :: l). rewrite L. reflexivity.
Qed.

Lemma quiet_with_last_frame (s s1 : Window) (f : image) :
  quiet_step s s1 -> quiet_step s (with_last_frame s1 f).
Proof. unfold quiet_step, same_config. cbn. tauto. Qed.

Lemma quiet_with_qpix (s s1 : Window) (q : ndarray (pixel * Z)) :
  quiet_step s s1 -> quiet_step s (with_qpix s1 q).
Proof. unfold quiet_step, same_config. cbn. tauto. Qed.

Lemma quiet_stop_vcam (s s1 : Window) : quiet_step s s1 -> quiet_step s (stop_vcam s1).
Proof.
  intros H. unfold stop_vcam. destruct (vcam s1); [| exact H].
  apply (quiet_with_log s s1 InfoVcamStopped) in H.
  unfold quiet_step, same_config in *. cbn in *.
  destruct H as (C & V & L & S). repeat split; try tauto. discriminate.
Qed.

Lemma quiet_recover (s : Window) : quiet_step s (recover s).
Proof.
  unfold recover. destruct (no_frame_count s =? 0); [apply quiet_refl |].
  apply quiet_with_count, quiet_with_log, quiet_refl.
Qed.

Lemma quiet_miss (s : Window) : quiet_step s (miss s).
Proof.
  unfold miss. destruct (reports_miss _).
  - apply quiet_with_log, quiet_with_log, quiet_with_count, quiet_refl.
  - apply quiet_with_count, quiet_refl.
Qed.

(** A tick is a quiet step, or a quiet step followed by one send. *)
Lemma on_tick_steps (s : Window) (ok : bool) (frame : option image) (send_ok : bool) :
  quiet_step s (on_tick s ok frame send_ok) \/
  exists s1 out, quiet_step s s1 /\ vcam s1 = true /\ send_ok = true /\
                 (exists roi, vcam_stage s1 roi = Some out) /\
                 on_tick s ok frame send_ok = with_sent s1 out.
Proof.
  unfold on_tick. destruct (cap_opened s); cbn [negb]; [| left; apply quiet_refl].
  destruct ok; [| left; apply quiet_miss].
  destruct frame as [f |]; [| left; apply quiet_miss].
  pose proof (quiet_with_last_frame s _ f (quiet_recover s)) as Q1.
  set (s1 := with_last_frame (recover s) f) in *.
  destruct (window_stage s1 f) as [[[roi final] argb] |];
    [| left; apply quiet_with_log; exact Q1].
  pose proof (quiet_with_qpix s _ argb Q1) as Q2.
  set (s2 := with_qpix s1 argb) in *.
  destruct (vcam s2) eqn:Hv; [| left; exact Q2].
  destruct (vcam_stage s2 roi) as [out |] eqn:Ev; [| left; apply quiet_with_log; exact Q2].
  destruct send_ok.
  - right. exists s2, out. repeat split; try assumption; try apply Q2.
    exists roi. exact Ev.
  - left. apply quiet_stop_vcam, quiet_with_log. exact Q2.
Qed.

(** X8. A tick reads the configuration and never writes it: the crop, the
    chroma settings, the application state, the window width, the size of
    the virtual camera and the capture flag are what they were.  It never
    switches the virtual camera on, it only adds to the log, and it sends
    at most one frame. *)
Theorem on_tick_preserves_config (s : Window) (ok : bool) (frame : option image)
    (send_ok : bool) :
  let s' := on_tick s ok frame send_ok in
  same_config s s' /\
  (vcam s' = true -> vcam s = true) /\
  (exists l, log s' = l ++ log s) /\
  (sent s' = sent s \/ exists out, sent s' = out :: sent s).
Proof.
  cbv zeta. destruct (on_tick_steps s ok frame send_ok)
    as [(C & V & L & S) | (s1 & out & (C & V & L & S) & _ & _ & _ & E)].
  - split; [exact C |]. split; [exact V |]. split; [exact L |]. left. exact S.
  - rewrite E. cbn. unfold same_config in *. cbn.
    split; [exact C |]. split; [exact V |]. split; [exact L |].
    right. exists out. rewrite S. reflexivity.
Qed.

(** X9. Whatever the frames read and whatever the camera answers, every
    frame sent to a virtual camera of positive width and height has
    exactly the size of the camera. *)
Theorem run_sent_sizes (reads : list (bool * option image * bool)) :
  forall s,
    0 < vcam_w s -> 0 < vcam_h s ->
    Forall (fun out => has_size out (vcam_w s) (vcam_h s)) (sent s) ->
    Forall (fun out => has_size out (vcam_w s) (vcam_h s)) (sent (run s reads)).
Proof.
  induction reads as [| [[ok frame] b] reads IH]; intros s HW HH Hs; cbn [run].
  - exact Hs.
  - assert (Hk : same_config s (on_tick s ok frame b) /\
                 Forall (fun out => has_size out (vcam_w s) (vcam_h s))
                        (sent (on_tick s ok frame b))).
    { destruct (on_tick_steps s ok frame b)
        as [(C & V & L & S) | (s1 & out & (C & V & L & S) & _ & _ & (roi & Ev) & E)].
      - split; [exact C |]. rewrite S. exact Hs.
      - rewrite E. split; [exact C |]. cbn [with_sent sent]. constructor.
        + unfold same_config in C. destruct C as (_ & _ & _ & _ & _ & Cw & Ch).
          rewrite <- Cw, <- Ch. apply (vcam_stage_some s1 roi out); [lia | lia | exact Ev].
        + rewrite S. exact Hs. }
    destruct Hk as [C Hk]. unfold same_config in C.
    destruct C as (_ & _ & _ & _ & _ & Cw & Ch).
    rewrite <- Cw, <- Ch. apply IH; rewrite ?Cw, ?Ch; assumption.
Qed.


End VcamProperties.

Lemma run_sent_sizes_witness :
  let s := mk_window true 0 None None true [] [] (mk_crop false None)
             Plain.default_chroma (mk_state false false 360 true false) 4 6 4 in
  let reads := [(true, Some (Plain.grid 4 6), true); (false, None, true);
                (true, Some (Plain.grid 3 3), true)] in
  0 < vcam_w s /\ 0 < vcam_h s /\
  Forall (fun out => has_size out (vcam_w s) (vcam_h s)) (sent s) /\
  Forall (fun out => has_size out (vcam_w s) (vcam_h s)) (sent (@run Plain.cv s reads)).
Proof.
  cbv zeta. split; [cbn; lia |]. split; [cbn; lia |]. split; [constructor |].
  apply (@run_sent_sizes Plain.cv); [cbn; lia | cbn; lia | constructor].
Defined.


(** ** The cover fit never pads *)




(** A 4 by 6 frame covering 3 by 3 is scaled to 5 by 3 and loses one
    column on each side. *)
Example cover_size_4_6 : cover_size 6 4 3 3 = Some (5, 3).
Proof. vm_compute. reflexivity. Qed.

(** ** A rect inside the frame *)

(** X12. A stored rect that lies inside the frame, with a width and a
    height of at least 1, is used as it is: the clamp is the identity on it
    and the tick proceeds with exactly that sub-image. *)
Theorem crop_step_inside {A} (frame : ndarray A) (x y w h : Z) :
  0 <= x -> 0 <= y -> 1 <= w -> 1 <= h ->
  x + w <= Z.of_nat (shape1 frame) -> y + h <= Z.of_nat (shape0 frame) ->
  crop_clamp (Z.of_nat (shape0 frame)) (Z.of_nat (shape1 frame)) (x, y, w, h)
    = (x, y, w, h) /\
  let sub := crop_step (mk_crop true (Some (x, y, w, h))) frame in
  Z.of_nat (shape0 sub) = h /\ Z.of_nat (shape1 sub) = w /\
  forall i j, item sub i j = item frame (Z.to_nat y + i) (Z.to_nat x + j).
Proof.
  intros Hx Hy Hw Hh Hxw Hyh.
  assert (E : crop_clamp (Z.of_nat (shape0 frame)) (Z.of_nat (shape1 frame)) (x, y, w, h)
              = (x, y, w, h)).
  { unfold crop_clamp. rewrite (clamp_id x), (clamp_id y) by lia.
    rewrite (clamp_id w), (clamp_id h) by lia. reflexivity. }
  split; [exact E |].
  unfold crop_step. cbn [crop_enabled crop_rect]. rewrite E.
  destruct (slice_inside frame y (y + h) x (x + w)) as (S0 & S1 & S2); try lia.
  cbv zeta. rewrite S0, S1. repeat split; try lia. exact S2.
Qed.

Lemma crop_step_inside_witness :
  let frame := Plain.grid 480 640 in
  0 <= 100 /\ 0 <= 50 /\ 1 <= 200 /\ 1 <= 300 /\
  100 + 200 <= Z.of_nat (shape1 frame) /\ 50 + 300 <= Z.of_nat (shape0 frame) /\
  crop_clamp (Z.of_nat (shape0 frame)) (Z.of_nat (shape1 frame)) (100, 50, 200, 300)
    = (100, 50, 200, 300) /\
  let sub := crop_step (mk_crop true (Some (100, 50, 200, 300))) frame in
  Z.of_nat (shape0 sub) = 300 /\ Z.of_nat (shape1 sub) = 200 /\
  forall i j, item sub i j = item frame (Z.to_nat 50 + i) (Z.to_nat 100 + j).
Proof.
  cbv zeta. repeat (split; [cbn; lia |]).
  apply (crop_step_inside (Plain.grid 480 640) 100 50 200 300); cbn; lia.
Defined.

(** ** The crop dialog *)

Lemma preview_scale_pos (w h lbl_w lbl_h : Z) :
  0 < w -> 0 < h -> 0 < lbl_w -> 0 < lbl_h ->
  exists scale, preview_scale w h lbl_w lbl_h = Some scale /\ (0 < scale)%Q /\
                (inject_Z w * scale <= inject_Z lbl_w)%Q /\
                (inject_Z h * scale <= inject_Z lbl_h)%Q.
Proof.
  intros Hw Hh Hlw Hlh. unfold preview_scale.
  destruct (py_div_pos lbl_w w Hlw Hw) as (sw & -> & Psw & Esw).
  destruct (py_div_pos lbl_h h Hlh Hh) as (sh & -> & Psh & Esh).
  cbn [bind]. eexists. split; [reflexivity |].
  destruct (py_qmin_le sw sh) as (La & Lb & Lc).
  split; [destruct Lc as [-> | ->]; assumption |].
  split.
  - rewrite <- Esw. apply Qmult_le_l; [apply inject_Z_pos; exact Hw | exact La].
  - rewrite <- Esh. apply Qmult_le_l; [apply inject_Z_pos; exact Hh | exact Lb].
Qed.

Lemma py_qdiv_pos (a scale : Q) :
  (0 < scale)%Q -> py_qdiv a scale = Some (a / scale)%Q.
Proof.
  intros Hs. unfold py_qdiv. destruct (Qeq_bool scale 0) eqn:E; [| reflexivity].
  apply Qeq_bool_iff in E. rewrite E in Hs. exfalso. apply (Qlt_irrefl 0). exact Hs.
Qed.

Lemma qclamp_bounds (v lo hi : Q) : (lo <= hi)%Q -> (lo <= qclamp v lo hi <= hi)%Q.
Proof.
  intros Hle. unfold qclamp.
  destruct (py_qmax_ge lo (py_qmin hi v)) as [Ga Gb].
  split; [exact Ga |].
  unfold py_qmax. destruct (Qle_bool (py_qmin hi v) lo); cbn [negb].
  - exact Hle.
  - apply (py_qmin_le hi v).
Qed.

(** [int] of a float between two integers, the lower one not negative. *)
Lemma py_int_between (q : Q) (lo hi : Z) :
  0 <= lo -> (inject_Z lo <= q <= inject_Z hi)%Q -> lo <= py_int q <= hi.
Proof.
  intros Hlo [Hl Hh].
  assert (Hq : (0 <= q)%Q).
  { eapply Qle_trans; [| exact Hl]. change 0%Q with (inject_Z 0). rewrite <- Zle_Qle. exact Hlo. }
  rewrite py_int_nonneg by exact Hq. split.
  - rewrite <- (Qfloor_Z lo). apply Qfloor_resp_le. exact Hl.
  - rewrite <- (Qfloor_Z hi). apply Qfloor_resp_le. exact Hh.
Qed.

Lemma int_qclamp (v : Q) (lo hi : Z) :
  0 <= lo <= hi -> lo <= py_int (qclamp v (inject_Z lo) (inject_Z hi)) <= hi.
Proof.
  intros Hb. apply py_int_between; [lia |].
  apply qclamp_bounds. rewrite <- Zle_Qle. lia.
Qed.

(** X13. For a cached frame and a preview label of positive width and
    height, a selection always gives a rect inside the frame, with a width
    and a height of at least 1, on which the clamp of the crop step is the
    identity; the crop is enabled by accepting it.  Without a selection
    the dialog returns the rect it was opened with, and without a cached
    frame it returns no rect, which disables the crop. *)
Theorem selected_rect_in_frame (h w lbl_w lbl_h : Z)
    (selection initial_rect : Z * Z * Z * Z) :
  0 < h -> 0 < w -> 0 < lbl_w -> 0 < lbl_h ->
  (exists x y rw rh,
     selected_rect_source_coords (Some (h, w)) lbl_w lbl_h (Some selection)
       (Some initial_rect) = Some (Some (x, y, rw, rh)) /\
     0 <= x <= w - 1 /\ 0 <= y <= h - 1 /\ 1 <= rw <= w - x /\ 1 <= rh <= h - y /\
     crop_clamp h w (x, y, rw, rh) = (x, y, rw, rh) /\
     accept_crop (Some (x, y, rw, rh)) = mk_crop true (Some (x, y, rw, rh))) /\
  selected_rect_source_coords (Some (h, w)) lbl_w lbl_h None (Some initial_rect)
    = Some (Some initial_rect) /\
  selected_rect_source_coords None lbl_w lbl_h (Some selection) (Some initial_rect)
    = Some None /\
  crop_enabled (accept_crop None) = false.
Proof.
  intros Hh Hw Hlw Hlh.
  destruct (preview_scale_pos w h lbl_w lbl_h Hw Hh Hlw Hlh) as (scale & Es & Ps & _ & _).
  split; [| split; [| split; reflexivity]].
  - destruct selection as [[[rx ry] rwid] rhei].
    unfold selected_rect_source_coords. rewrite Es. cbn [bind].
    rewrite !py_qdiv_pos by exact Ps. cbn [bind].
    set (x := py_int (qclamp _ 0 (inject_Z (w - 1)))).
    set (y := py_int (qclamp _ 0 (inject_Z (h - 1)))).
    assert (Hx : 0 <= x <= w - 1) by (apply (int_qclamp _ 0 (w - 1)); lia).
    assert (Hy : 0 <= y <= h - 1) by (apply (int_qclamp _ 0 (h - 1)); lia).
    set (rw := py_int (qclamp _ 1 (inject_Z (w - x)))).
    set (rh := py_int (qclamp _ 1 (inject_Z (h - y)))).
    assert (Hrw : 1 <= rw <= w - x) by (apply (int_qclamp _ 1 (w - x)); lia).
    assert (Hrh : 1 <= rh <= h - y) by (apply (int_qclamp _ 1 (h - y)); lia).
    exists x, y, rw, rh. split; [reflexivity |].
    repeat (split; [lia |]). split; [| reflexivity].
    unfold crop_clamp. rewrite (clamp_id x), (clamp_id y) by lia.
    rewrite (clamp_id rw), (clamp_id rh) by lia. reflexivity.
  - unfold selected_rect_source_coords. rewrite Es. reflexivity.
Qed.

Lemma selected_rect_in_frame_witness :
  0 < 480 /\ 0 < 640 /\ 0 < 640 /\ 0 < 360 /\
  (exists x y rw rh,
     selected_rect_source_coords (Some (480, 640)) 640 360 (Some (100, 50, 200, 900))
       (Some (0, 0, 10, 10)) = Some (Some (x, y, rw, rh)) /\
     0 <= x <= 640 - 1 /\ 0 <= y <= 480 - 1 /\ 1 <= rw <= 640 - x /\ 1 <= rh <= 480 - y /\
     crop_clamp 480 640 (x, y, rw, rh) = (x, y, rw, rh) /\
     accept_crop (Some (x, y, rw, rh)) = mk_crop true (Some (x, y, rw, rh))) /\
  selected_rect_source_coords (Some (480, 640)) 640 360 None (Some (0, 0, 10, 10))
    = Some (Some (0, 0, 10, 10)) /\
  selected_rect_source_coords None 640 360 (Some (100, 50, 200, 900)) (Some (0, 0, 10, 10))
    = Some None /\
  crop_enabled (accept_crop None) = false.
Proof.
  repeat (split; [lia |]).
  apply (selected_rect_in_frame 480 640 640 360 (100, 50, 200, 900) (0, 0, 10, 10)); lia.
Defined.

(** The selection of the witness: the label shows the 640 by 480 frame at
    the scale 3/4 with an offset of 80 columns; the drag is cut at the
    bottom of the frame. *)
Example selected_rect_example :
  selected_rect_source_coords (Some (480, 640)) 640 360 (Some (100, 50, 200, 900))
    (Some (0, 0, 10, 10)) = Some (Some (26, 66, 266, 414)).
Proof. vm_compute. reflexivity. Qed.

(** ** Picking a colour *)

(** A column of the displayed image maps back to a column of the frame. *)
Lemma scaled_index (w x : Z) (scale : Q) :
  (0 < scale)%Q -> 0 < w -> 0 <= x -> x < py_int (inject_Z w * scale) ->
  py_qdiv (inject_Z x) scale = Some (inject_Z x / scale)%Q /\
  0 <= py_int (inject_Z x / scale) < w.
Proof.
  intros Ps Hw Hx Hlt. split; [apply py_qdiv_pos; exact Ps |].
  assert (Pw : (0 <= inject_Z w * scale)%Q).
  { apply Qmult_le_0_compat; apply Qlt_le_weak; [apply inject_Z_pos |]; assumption. }
  rewrite py_int_nonneg in Hlt by exact Pw.
  assert (Px : (0 <= inject_Z x)%Q).
  { change 0%Q with (inject_Z 0). rewrite <- Zle_Qle. exact Hx. }
  assert (Pq : (0 <= inject_Z x / scale)%Q).
  { apply Qle_shift_div_l; [exact Ps |]. rewrite Qmult_0_l. exact Px. }
  rewrite py_int_nonneg by exact Pq. split.
  - change 0 with (Qfloor 0). apply Qfloor_resp_le. exact Pq.
  - assert (Hxs : (inject_Z x < inject_Z w * scale)%Q).
    { eapply Qlt_le_trans; [| apply Qfloor_le]. rewrite <- Zlt_Qlt. exact Hlt. }
    assert (Hq : (inject_Z x / scale < inject_Z w)%Q).
    { apply Qlt_shift_div_r; assumption. }
    rewrite Zlt_Qlt. eapply Qle_lt_trans; [apply Qfloor_le | exact Hq].
Qed.

Lemma on_preview_click_inside (d : ChromaDialog) (frame : image) (which : pick_which)
    (lbl_w lbl_h ex ey : Z) :
  pick_target d = Some which ->
  (0 < shape0 frame)%nat -> (0 < shape1 frame)%nat -> 0 < lbl_w -> 0 < lbl_h ->
  click_outcome d frame which lbl_w lbl_h ex ey.
Proof.
  intros Ht H0 H1 Hlw Hlh. unfold click_outcome.
  destruct (preview_scale_pos (Z.of_nat (shape1 frame)) (Z.of_nat (shape0 frame))
              lbl_w lbl_h ltac:(lia) ltac:(lia) Hlw Hlh) as (scale & Es & Ps & _ & _).
  exists scale. split; [exact Es |]. cbv zeta.
  set (disp_w := py_int (inject_Z (Z.of_nat (shape1 frame)) * scale)).
  set (disp_h := py_int (inject_Z (Z.of_nat (shape0 frame)) * scale)).
  set (x := ex - (lbl_w - disp_w) / 2). set (y := ey - (lbl_h - disp_h) / 2).
  split.
  - intros Hx Hy.
    destruct (scaled_index (Z.of_nat (shape1 frame)) x scale Ps ltac:(lia)
                ltac:(lia) ltac:(apply Hx)) as [Qx Bx].
    destruct (scaled_index (Z.of_nat (shape0 frame)) y scale Ps ltac:(lia)
                ltac:(lia) ltac:(apply Hy)) as [Qy By].
    set (fx := py_int (inject_Z x / scale)) in *.
    set (fy := py_int (inject_Z y / scale)) in *.
    destruct (item frame (Z.to_nat fy) (Z.to_nat fx)) as [[b g] r] eqn:Ep.
    exists (Z.to_nat fx), (Z.to_nat fy), b, g, r.
    split; [lia |]. split; [lia |]. split; [exact Ep |].
    unfold on_preview_click. rewrite Ht, Es. cbn [bind].
    fold disp_w disp_h. fold x y.
    destruct (Z.ltb_spec x 0); [lia |]. destruct (Z.ltb_spec y 0); [lia |].
    destruct (Z.leb_spec disp_w x); [lia |]. destruct (Z.leb_spec disp_h y); [lia |].
    cbn [orb]. rewrite Qx, Qy. cbn [bind]. fold fx fy.
    unfold frame_at.
    destruct (Z.leb_spec 0 fy); [| lia].
    destruct (Z.ltb_spec fy (Z.of_nat (shape0 frame))); [| lia].
    destruct (Z.leb_spec 0 fx); [| lia].
    destruct (Z.ltb_spec fx (Z.of_nat (shape1 frame))); [| lia].
    cbn [andb bind]. rewrite Ep. rewrite !Z2Nat.id by lia.
    unfold picked. destruct which; reflexivity.
  - intros Hout. unfold on_preview_click. rewrite Ht, Es. cbn [bind].
    fold disp_w disp_h. fold x y.
    destruct (Z.ltb_spec x 0); [reflexivity |].
    destruct (Z.ltb_spec y 0); [reflexivity |].
    destruct (Z.leb_spec disp_w x); [reflexivity |].
    destruct (Z.leb_spec disp_h y); [reflexivity |]. lia.
Qed.



(** The click of the witness: the 6 by 4 frame is shown at the scale 2
    with an offset of one row, and the click at (5, 4) reads the pixel in
    row 1 and column 2. *)
Example on_preview_click_example :
  on_preview_click (mk_dialog Plain.default_chroma (Some PickA) None None)
    (Some (Plain.grid 4 6)) 12 10 5 4
  = Some (mk_dialog (with_pickA Plain.default_chroma (0, 2, 1)) None (Some (2, 1)) None).
Proof. vm_compute. reflexivity. Qed.

Section PickAndKey.

Context {cv : Cv2}.

(** X15. A colour picked with a click is keyed out where it was picked:
    in reference-colour mode without feathering and with tolerances that
    are not negative, after a click on the displayed image the alpha mask
    of the same frame (of 8-bit samples) is 0 at the pixel whose position
    the dialog stored. *)
Theorem pick_then_key (d d' : ChromaDialog) (frame : image) (which : pick_which)
    (lbl_w lbl_h ex ey : Z) :
  sqrt32 0 = Fin 0 ->
  pick_target d = Some which ->
  (0 < shape0 frame)%nat -> (0 < shape1 frame)%nat -> 0 < lbl_w -> 0 < lbl_h ->
  u8_frame frame ->
  use_hsv (chroma_of d) = false -> feather (chroma_of d) < 2 ->
  0 <= tolA (chroma_of d) -> 0 <= tolB (chroma_of d) ->
  on_preview_click d (Some frame) lbl_w lbl_h ex ey = Some d' -> d' <> d ->
  exists fx fy,
    (match which with PickA => pickA_pos d' | PickB => pickB_pos d' end)
      = Some (Z.of_nat fx, Z.of_nat fy) /\
    (fx < shape1 frame)%nat /\ (fy < shape0 frame)%nat /\
    item (build_alpha_mask (chroma_of d') frame) fy fx = 0.
Proof.
  intros Hs Ht H0 H1 Hlw Hlh Hu Hh Hf Ha Hb Ed Hne.
  destruct (on_preview_click_inside d frame which lbl_w lbl_h ex ey Ht H0 H1 Hlw Hlh)
    as (scale & _ & Hin & Hout). cbv zeta in Hin, Hout.
  set (disp_w := py_int (inject_Z (Z.of_nat (shape1 frame)) * scale)) in *.
  set (disp_h := py_int (inject_Z (Z.of_nat (shape0 frame)) * scale)) in *.
  set (x := ex - (lbl_w - disp_w) / 2) in *. set (y := ey - (lbl_h - disp_h) / 2) in *.
  destruct (Z_lt_ge_dec x 0) as [Lx | Lx];
    [rewrite Hout in Ed by lia; congruence |].
  destruct (Z_lt_ge_dec y 0) as [Ly | Ly];
    [rewrite Hout in Ed by lia; congruence |].
  destruct (Z_lt_ge_dec x disp_w) as [Ux | Ux];
    [| rewrite Hout in Ed by lia; congruence].
  destruct (Z_lt_ge_dec y disp_h) as [Uy | Uy];
    [| rewrite Hout in Ed by lia; congruence].
  destruct (Hin ltac:(lia) ltac:(lia)) as (fx & fy & b & g & r & Bx & By & Ep & E).
  rewrite E in Ed. injection Ed as Ed.
  exists fx, fy.
  assert (U : is_u8 (fst (fst (b, g, r))) /\ is_u8 (snd (fst (b, g, r))) /\
              is_u8 (snd (b, g, r))).
  { rewrite <- Ep. exact (Hu fy fx By Bx). }
  cbn [fst snd] in U. destruct U as (Ub & Ug & Ur).
  unfold picked in Ed.
  destruct which; subst d'; cbn [pickA_pos pickB_pos chroma_of].
  - split; [reflexivity |]. split; [exact Bx |]. split; [exact By |].
    apply (pixel_keyed_out _ frame r g b); try assumption.
    left. split; [reflexivity | exact Ha].
  - split; [reflexivity |]. split; [exact Bx |]. split; [exact By |].
    apply (pixel_keyed_out _ frame r g b); try assumption.
    right. split; [reflexivity | exact Hb].
Qed.

End PickAndKey.

Lemma grid_u8 (h w : nat) : (h <= 256)%nat -> (w <= 256)%nat -> u8_frame (Plain.grid h w).
Proof.
  intros Hh Hw i j Hi Hj. cbn in *. unfold is_u8. lia.
Qed.

Lemma pick_then_key_witness :
  let c := mk_chroma true None 30 None 30 false 35 85 40 255 40 255 0 in
  let d := mk_dialog c (Some PickA) None None in
  let d' := mk_dialog (with_pickA c (0, 2, 1)) None (Some (2, 1)) None in
  let frame := Plain.grid 4 6 in
  @sqrt32 Plain.cv 0 = Fin 0 /\ pick_target d = Some PickA /\
  (0 < shape0 frame)%nat /\ (0 < shape1 frame)%nat /\ 0 < 12 /\ 0 < 10 /\
  u8_frame frame /\ use_hsv (chroma_of d) = false /\ feather (chroma_of d) < 2 /\
  0 <= tolA (chroma_of d) /\ 0 <= tolB (chroma_of d) /\
  on_preview_click d (Some frame) 12 10 5 4 = Some d' /\ d' <> d /\
  exists fx fy,
    pickA_pos d' = Some (Z.of_nat fx, Z.of_nat fy) /\
    (fx < shape1 frame)%nat /\ (fy < shape0 frame)%nat /\
    item (@build_alpha_mask Plain.cv (chroma_of d') frame) fy fx = 0.
Proof.
  cbv zeta.
  assert (U : u8_frame (Plain.grid 4 6)) by (apply grid_u8; lia).
  assert (F : 0 < 2) by lia. assert (T : 0 <= 30) by lia.
  assert (L1 : 0 < 12) by lia. assert (L2 : 0 < 10) by lia.
  assert (S0 : (0 < 4)%nat) by lia. assert (S1 : (0 < 6)%nat) by lia.
  assert (N : mk_dialog (with_pickA (mk_chroma true None 30 None 30 false 35 85 40 255 40 255 0)
                           (0, 2, 1)) None (Some (2, 1)) None
              <> mk_dialog (mk_chroma true None 30 None 30 false 35 85 40 255 40 255 0)
                   (Some PickA) None None) by discriminate.
  assert (E : on_preview_click
                (mk_dialog (mk_chroma true None 30 None 30 false 35 85 40 255 40 255 0)
                   (Some PickA) None None) (Some (Plain.grid 4 6)) 12 10 5 4
              = Some (mk_dialog
                        (with_pickA (mk_chroma true None 30 None 30 false 35 85 40 255 40 255 0)
                           (0, 2, 1)) None (Some (2, 1)) None))
    by (vm_compute; reflexivity).
  split; [reflexivity |]. split; [reflexivity |]. split; [exact S0 |]. split; [exact S1 |].
  split; [exact L1 |]. split; [exact L2 |]. split; [exact U |]. split; [reflexivity |].
  split; [exact F |]. split; [exact T |]. split; [exact T |]. split; [exact E |].
  split; [exact N |].
  exact (@pick_then_key Plain.cv
           (mk_dialog (mk_chroma true None 30 None 30 false 35 85 40 255 40 255 0)
              (Some PickA) None None)
           (mk_dialog
              (with_pickA (mk_chroma true None 30 None 30 false 35 85 40 255 40 255 0)
                 (0, 2, 1)) None (Some (2, 1)) None)
           (Plain.grid 4 6) PickA 12 10 5 4
           eq_refl eq_refl S0 S1 L1 L2 U eq_refl F T T E N).
Defined.

(** ** The extended style of the window *)

Lemma exstyle_bits (enabled : bool) (ex n : Z) :
  Z.testbit (apply_click_through_windows true enabled ex) n
  = if n =? 19 then true else if n =? 5 then enabled else Z.testbit ex n.
Proof.
  unfold apply_click_through_windows, win_set_exstyle_flag. cbn [negb].
  change WS_EX_LAYERED with (2 ^ 19). change WS_EX_TRANSPARENT with (2 ^ 5).
  destruct (Z.ltb_spec n 0) as [Hn | Hn].
  { rewrite !Z.testbit_neg_r by lia.
    destruct (Z.eqb_spec n 19); [lia |]. destruct (Z.eqb_spec n 5); [lia |]. reflexivity. }
  destruct enabled.
  - rewrite !Z.lor_spec, !Z.pow2_bits_eqb by lia.
    rewrite (Z.eqb_sym 19 n), (Z.eqb_sym 5 n).
    destruct (Z.eqb_spec n 19); destruct (Z.eqb_spec n 5); try lia;
      rewrite ?orb_true_r, ?orb_false_r; reflexivity.
  - rewrite Z.land_spec, Z.lnot_spec, Z.lor_spec, !Z.pow2_bits_eqb by lia.
    rewrite (Z.eqb_sym 19 n), (Z.eqb_sym 5 n).
    destruct (Z.eqb_spec n 19); destruct (Z.eqb_spec n 5); try lia; cbn [negb];
      rewrite ?orb_true_r, ?orb_false_r, ?andb_true_r, ?andb_false_r; reflexivity.
Qed.

(** X16. On Windows, applying the click-through sets the bit of
    [WS_EX_LAYERED], makes the bit of [WS_EX_TRANSPARENT] equal to the
    switch and leaves every other bit of the extended style as it was;
    applying it again changes nothing, and only the last switch counts.
    On another system the style is not touched. *)
Theorem apply_click_through_style (enabled enabled' : bool) (ex : Z) :
  (forall n,
     Z.testbit (apply_click_through_windows true enabled ex) n
     = if n =? 19 then true else if n =? 5 then enabled else Z.testbit ex n) /\
  apply_click_through_windows true enabled (apply_click_through_windows true enabled' ex)
  = apply_click_through_windows true enabled ex /\
  apply_click_through_windows false enabled ex = ex.
Proof.
  split; [intros n; apply exstyle_bits |]. split; [| reflexivity].
  apply Z.bits_inj'. intros n _. rewrite !exstyle_bits.
  destruct (n =? 19); [reflexivity |]. destruct (n =? 5); reflexivity.
Qed.

(** The default extended style 0x100 with the click-through on and off
    again. *)
Example apply_click_through_example :
  apply_click_through_windows true true 0x100 = 0x80120 /\
  apply_click_through_windows true false 0x80120 = 0x80100.
Proof. split; reflexivity. Qed.

(** ** Dragging the window *)

Lemma mouse_seq_cons (w : Widget) (e : mouse_event) (es : list mouse_event) :
  mouse_seq w (e :: es) = mouse_seq (fst (mouse w e)) es.
Proof. reflexivity. Qed.

Lemma moves_follow (ps : list (Z * Z)) :
  forall w,
    dragging w = true -> click_through w = false ->
    let w' := mouse_seq w (map Move ps) in
    dragging w' = true /\ click_through w' = false /\ drag_pos w' = drag_pos w /\
    pos_xy w' = pos_xy w /\
    top_left w' = match ps with
                  | [] => top_left w
                  | _ :: _ => psub (last ps (0, 0)) (drag_pos w)
                  end.
Proof.
  induction ps as [| p ps IH]; intros w Hd Hc; cbv zeta.
  - repeat split; assumption.
  - cbn [map]. rewrite mouse_seq_cons. cbn [mouse]. unfold mouseMoveEvent.
    rewrite Hd, Hc. cbn [andb negb fst].
    set (w1 := mk_widget _ _ _ _ _ _ _).
    destruct (IH w1 eq_refl eq_refl) as (I1 & I2 & I3 & I4 & I5).
    split; [exact I1 |]. split; [exact I2 |]. split; [exact I3 |]. split; [exact I4 |].
    rewrite I5. destruct ps as [| q ps]; reflexivity.
Qed.

(** X17. A drag moves the window by what the cursor moved.  Without
    click-through, after a press of the left button at [p0] and moves of
    the cursor ending at [p], the corner of the window is the old corner
    plus [p - p0]; every one of these events is accepted; the release ends
    the drag and stores that corner as the position of the window. *)
Theorem drag_moves_window (w : Widget) (p0 p : Z * Z) (ps : list (Z * Z)) :
  click_through w = false ->
  let w1 := fst (mousePressEvent w LeftButton p0) in
  let w2 := mouse_seq w1 (map Move (ps ++ [p])) in
  let w3 := fst (mouseReleaseEvent w2) in
  snd (mousePressEvent w LeftButton p0) = Accepted /\
  (forall q, snd (mouseMoveEvent w2 q) = Accepted) /\
  top_left w2 = (fst (top_left w) + (fst p - fst p0), snd (top_left w) + (snd p - snd p0)) /\
  top_left w3 = top_left w2 /\ pos_xy w3 = top_left w2 /\ dragging w3 = false /\
  mouse_seq w1 [] = w1 /\ top_left w1 = top_left w.
Proof.
  intros Hc. cbv zeta. unfold mousePressEvent. rewrite Hc. cbn [fst snd].
  set (w1 := mk_widget _ _ _ _ _ _ _).
  destruct (moves_follow (ps ++ [p]) w1 eq_refl eq_refl) as (M1 & M2 & M3 & M4 & M5).
  cbv zeta in M1, M2, M3, M4, M5.
  set (w2 := mouse_seq w1 (map Move (ps ++ [p]))) in *.
  split; [reflexivity |].
  split; [intros q; unfold mouseMoveEvent; rewrite M1, M2; reflexivity |].
  assert (T : top_left w2
              = (fst (top_left w) + (fst p - fst p0), snd (top_left w) + (snd p - snd p0))).
  { rewrite M5. destruct (ps ++ [p]) as [| a l] eqn:E.
    - destruct ps; discriminate.
    - rewrite <- E, last_last. subst w1. cbn [drag_pos]. unfold psub. cbn [fst snd].
      f_equal; lia. }
  split; [exact T |].
  unfold mouseReleaseEvent. rewrite M1. cbn [fst top_left pos_xy dragging].
  repeat split.
Qed.

Lemma drag_moves_window_witness :
  let w := mk_widget false false 0 false (0, 0) (100, 100) (100, 100) in
  let w1 := fst (mousePressEvent w LeftButton (130, 140)) in
  let w2 := mouse_seq w1 (map Move ([(131, 141); (150, 170)] ++ [(230, 120)])) in
  let w3 := fst (mouseReleaseEvent w2) in
  click_through w = false /\
  snd (mousePressEvent w LeftButton (130, 140)) = Accepted /\
  (forall q, snd (mouseMoveEvent w2 q) = Accepted) /\
  top_left w2 = (fst (top_left w) + (fst (230, 120) - fst (130, 140)),
                 snd (top_left w) + (snd (230, 120) - snd (130, 140))) /\
  top_left w3 = top_left w2 /\ pos_xy w3 = top_left w2 /\ dragging w3 = false /\
  mouse_seq w1 [] = w1 /\ top_left w1 = top_left w.
Proof.
  cbv zeta. split; [reflexivity |].
  exact (drag_moves_window (mk_widget false false 0 false (0, 0) (100, 100) (100, 100))
           (130, 140) (230, 120) [(131, 141); (150, 170)] eq_refl).
Defined.

(** X18. With click-through switched on while no drag is under way, the
    flag, the widget attribute and (on Windows) the style bit are set, and
    the window is deaf to the mouse: every press, move and release is
    ignored and leaves the widget exactly as it is, so it cannot be
    dragged.  Switched off again, a press of the left button starts a
    drag. *)
Theorem click_through_ignores_mouse (nt : bool) (w : Widget) (es : list mouse_event) :
  dragging w = false ->
  let w1 := set_click_through nt w true in
  click_through w1 = true /\ mouse_transparent w1 = true /\
  (nt = true -> Z.testbit (exstyle w1) 5 = true) /\
  mouse_seq w1 es = w1 /\
  (forall e, mouse w1 e = (w1, Ignored)) /\
  (forall button p, dragging (fst (mousePressEvent (set_click_through nt w1 false) button p))
                    = match button with LeftButton => true | OtherButton => false end).
Proof.
  intros Hd. cbv zeta.
  assert (Hm : forall e, mouse (set_click_through nt w true) e
                         = (set_click_through nt w true, Ignored)).
  { intros [button p | p |]; cbn [mouse].
    - reflexivity.
    - unfold mouseMoveEvent. cbn [set_click_through dragging click_through].
      rewrite Hd. reflexivity.
    - unfold mouseReleaseEvent. cbn [set_click_through dragging click_through].
      rewrite Hd. reflexivity. }
  split; [reflexivity |]. split; [reflexivity |].
  split.
  { intros ->. cbn [set_click_through exstyle]. rewrite exstyle_bits. reflexivity. }
  split.
  { induction es as [| e es IH]; [reflexivity |].
    rewrite mouse_seq_cons, Hm. cbn [fst]. exact IH. }
  split; [exact Hm |].
  intros button p. unfold mousePressEvent. cbn [set_click_through click_through].
  destruct button; cbn [fst dragging]; [reflexivity | exact Hd].
Qed.

Lemma click_through_ignores_mouse_witness :
  let w := mk_widget false false 0x100 false (0, 0) (100, 100) (100, 100) in
  let es := [Press LeftButton (130, 140); Move (150, 150); Release] in
  let w1 := set_click_through true w true in
  dragging w = false /\
  click_through w1 = true /\ mouse_transparent w1 = true /\
  (true = true -> Z.testbit (exstyle w1) 5 = true) /\
  mouse_seq w1 es = w1 /\
  (forall e, mouse w1 e = (w1, Ignored)) /\
  (forall button p, dragging (fst (mousePressEvent (set_click_through true w1 false) button p))
                    = match button with LeftButton => true | OtherButton => false end).
Proof.
  cbv zeta. split; [reflexivity |].
  exact (click_through_ignores_mouse true
           (mk_widget false false 0x100 false (0, 0) (100, 100) (100, 100))
           [Press LeftButton (130, 140); Move (150, 150); Release] eq_refl).
Defined.

(** ** Switching the virtual camera *)

Lemma kept_window_refl (w : Window) : kept_window w w.
Proof. unfold kept_window, same_config. repeat split. Qed.

Lemma kept_window_trans (w1 w2 w3 : Window) :
  kept_window w1 w2 -> kept_window w2 w3 -> kept_window w1 w3.
Proof.
  unfold kept_window, same_config.
  intros ((A1 & A2 & A3 & A4 & A5 & A6 & A7) & B1 & B2 & B3 & B4)
         ((C1 & C2 & C3 & C4 & C5 & C6 & C7) & D1 & D2 & D3 & D4).
  repeat split; congruence.
Qed.

Lemma stop_vcam_fields (w : Window) :
  vcam (stop_vcam w) = false /\ kept_window w (stop_vcam w).
Proof.
  unfold stop_vcam, kept_window, same_config.
  destruct (vcam w) eqn:E; cbn; repeat split; auto.
Qed.

Lemma vcam_off_spec (c : VcamCtl) :
  vcam_enabled (vcam_off c) = false /\ act_checked (vcam_off c) = act_checked c /\
  vcam (ctl_window (vcam_off c)) = false /\
  kept_window (ctl_window c) (ctl_window (vcam_off c)).
Proof.
  unfold vcam_off. cbn.
  destruct (stop_vcam_fields (ctl_window c)) as (A & B).
  split; [reflexivity |]. split; [reflexivity |]. split; assumption.
Qed.

Lemma uncheck_spec (c : VcamCtl) :
  vcam_enabled c = false -> vcam (ctl_window c) = false ->
  vcam_enabled (uncheck c) = false /\ act_checked (uncheck c) = false /\
  vcam (ctl_window (uncheck c)) = false /\
  kept_window (ctl_window c) (ctl_window (uncheck c)).
Proof.
  intros Hf Hv. unfold uncheck. destruct (act_checked c) eqn:Ea.
  - destruct (vcam_off_spec (ctl_with_checked c false)) as (A & B & C & D).
    split; [exact A |]. split; [exact B |]. split; assumption.
  - split; [exact Hf |]. split; [exact Ea |]. split; [exact Hv |].
    apply kept_window_refl.
Qed.

(** [start_vcam]: the camera runs afterwards exactly when pyvirtualcam is
    present and the camera was running or could be created; otherwise the
    flag and the check mark are cleared. *)
Lemma start_vcam_spec (have : bool) (cams : list bool) (c : VcamCtl) :
  (vcam (ctl_window c) = true -> have = true) ->
  let c' := fst (start_vcam have cams c) in
  let started := have && (vcam (ctl_window c) || hd false cams) in
  vcam (ctl_window c') = started /\
  vcam_enabled c' = vcam_enabled c && started /\
  act_checked c' = act_checked c && started /\
  kept_window (ctl_window c) (ctl_window c') /\
  snd (start_vcam have cams c)
  = (if have && negb (vcam (ctl_window c)) then tl cams else cams).
Proof.
  intros Hhave. cbv zeta. unfold start_vcam.
  assert (Hfail : forall l : list vcam_event,
             let c0 := ctl_with_flag
                         (ctl_with_window (mk_ctl (ctl_window c) (vcam_enabled c)
                                             (act_checked c) l)
                            (with_vcam (ctl_window c) false)) false in
             vcam (ctl_window (uncheck c0)) = false /\
             vcam_enabled (uncheck c0) = vcam_enabled c && false /\
             act_checked (uncheck c0) = act_checked c && false /\
             kept_window (ctl_window c) (ctl_window (uncheck c0))).
  { intros l c0.
    destruct (uncheck_spec c0 eq_refl eq_refl) as (A & B & C & D).
    rewrite !andb_false_r.
    split; [exact C |]. split; [exact A |]. split; [exact B |].
    eapply kept_window_trans; [| exact D].
    unfold kept_window, same_config. cbn. repeat split. }
  destruct have; cbn [negb andb].
  - destruct (vcam (ctl_window c)) eqn:Hv; cbn [orb negb fst snd].
    + rewrite Hv, !andb_true_r.
      split; [reflexivity |]. split; [reflexivity |]. split; [reflexivity |].
      split; [apply kept_window_refl | reflexivity].
    + destruct cams as [| [|] rest]; cbn [hd tl fst snd].
      * destruct (Hfail (ExcVcamStart :: ctl_log c)) as (A & B & C & D).
        split; [exact A |]. split; [exact B |]. split; [exact C |].
        split; [exact D | reflexivity].
      * cbn [ctl_with_log ctl_with_window ctl_window vcam_enabled act_checked].
        rewrite !andb_true_r.
        split; [reflexivity |]. split; [reflexivity |]. split; [reflexivity |].
        split; [| reflexivity].
        unfold kept_window, same_config. cbn. repeat split.
      * destruct (Hfail (ExcVcamStart :: ctl_log c)) as (A & B & C & D).
        split; [exact A |]. split; [exact B |]. split; [exact C |].
        split; [exact D | reflexivity].
  - assert (Hv : vcam (ctl_window c) = false).
    { destruct (vcam (ctl_window c)); [specialize (Hhave eq_refl); discriminate | reflexivity]. }
    cbn [fst snd].
    destruct (uncheck_spec (ctl_with_flag (ctl_with_log c WarnNoPyvirtualcam) false)
                eq_refl Hv) as (A & B & C & D).
    rewrite !andb_false_r.
    split; [exact C |]. split; [exact A |]. split; [exact B |].
    split; [exact D | reflexivity].
Qed.

(** X19. After [set_vcam_enabled], however it was called, the check mark
    of the menu action shows the flag, and a set flag means a running
    camera (a camera can only be running when pyvirtualcam is present).
    The camera is created at most twice.  When the first creation succeeds
    or a second one would fail as well, the camera runs exactly when it
    was asked for, pyvirtualcam is present and the camera was already
    running or could be created, and the flag is set exactly then.  Apart
    from the camera and the log the window is left as it was. *)
Theorem set_vcam_enabled_agrees (have : bool) (cams : list bool) (c : VcamCtl)
    (enabled : bool) :
  (vcam (ctl_window c) = true -> have = true) ->
  let c' := fst (set_vcam_enabled have cams c enabled) in
  let rest := snd (set_vcam_enabled have cams c enabled) in
  act_checked c' = vcam_enabled c' /\
  (vcam_enabled c' = true -> vcam (ctl_window c') = true) /\
  (rest = cams \/ rest = tl cams \/ rest = tl (tl cams)) /\
  (hd false cams = true \/ hd false (tl cams) = false ->
   vcam (ctl_window c') = enabled && have && (vcam (ctl_window c) || hd false cams) /\
   vcam_enabled c' = vcam (ctl_window c')) /\
  kept_window (ctl_window c) (ctl_window c').
Proof.
  intros Hhave. cbv zeta. unfold set_vcam_enabled.
  destruct enabled.
  - (* switching on *)
    change (act_checked (ctl_with_flag c true)) with (act_checked c).
    destruct (act_checked c) eqn:Ea; cbn [Bool.eqb].
    + (* the mark is set already: the setter runs once *)
      remember (ctl_with_log (ctl_with_flag c true) (InfoVcamFlag true)) as c0 eqn:E0.
      assert (W0 : ctl_window c0 = ctl_window c) by (subst c0; reflexivity).
      assert (F0 : vcam_enabled c0 = true) by (subst c0; reflexivity).
      assert (A0 : act_checked c0 = true) by (subst c0; exact Ea).
      clear E0.
      assert (Hhave0 : vcam (ctl_window c0) = true -> have = true)
        by (rewrite W0; exact Hhave).
      pose proof (start_vcam_spec have cams c0 Hhave0) as S.
      cbv zeta in S. rewrite W0, F0, A0 in S. cbn [andb] in S.
      destruct S as (S1 & S2 & S3 & S4 & S5).
      rewrite S1, S2, S3, S5.
      split; [reflexivity |]. split; [intros H; exact H |].
      split; [destruct (have && negb (vcam (ctl_window c))); auto |].
      split; [intros _; split; reflexivity | exact S4].
    + (* the mark changes: the setter runs within the setter *)
      unfold vcam_on.
      remember (ctl_with_log
                  (ctl_with_flag (ctl_with_checked (ctl_with_flag c true) true) true)
                  (InfoVcamFlag true)) as c0 eqn:E0.
      assert (W0 : ctl_window c0 = ctl_window c) by (subst c0; reflexivity).
      assert (F0 : vcam_enabled c0 = true) by (subst c0; reflexivity).
      assert (A0 : act_checked c0 = true) by (subst c0; reflexivity).
      clear E0.
      assert (Hhave0 : vcam (ctl_window c0) = true -> have = true)
        by (rewrite W0; exact Hhave).
      pose proof (start_vcam_spec have cams c0 Hhave0) as S.
      cbv zeta in S. rewrite W0, F0, A0 in S. cbn [andb] in S.
      destruct (start_vcam have cams c0) as [c2 cams2].
      cbn [fst snd] in S. destruct S as (S1 & S2 & S3 & S4 & S5). subst cams2.
      remember (ctl_with_log c2 (InfoVcamFlag true)) as c3 eqn:E3.
      assert (W3 : ctl_window c3 = ctl_window c2) by (subst c3; reflexivity).
      assert (F3 : vcam_enabled c3 = vcam_enabled c2) by (subst c3; reflexivity).
      assert (A3 : act_checked c3 = act_checked c2) by (subst c3; reflexivity).
      clear E3.
      assert (Hhave3 : vcam (ctl_window c3) = true -> have = true).
      { rewrite W3, S1. destruct have; [reflexivity | discriminate]. }
      pose proof (start_vcam_spec have
                    (if have && negb (vcam (ctl_window c)) then tl cams else cams)
                    c3 Hhave3) as T.
      cbv zeta in T. rewrite W3, F3, A3 in T.
      destruct T as (T1 & T2 & T3 & T4 & T5).
      rewrite T1, T2, T3, T5, S1, S2, S3.
      split; [reflexivity |].
      split; [intros H; apply andb_true_iff in H; exact (proj2 H) |].
      split; [destruct (have && negb (vcam (ctl_window c)));
              destruct (have && negb (have && (vcam (ctl_window c) || hd false cams)));
              auto |].
      split; [| eapply kept_window_trans; [exact S4 | exact T4]].
      intros H. destruct have; cbn [andb negb orb]; [| split; reflexivity].
      destruct (vcam (ctl_window c)); cbn [orb negb]; [split; reflexivity |].
      destruct (hd false cams) eqn:Eh; cbn [orb]; [split; reflexivity |].
      destruct H as [H | H]; [discriminate |]. rewrite H. split; reflexivity.
  - (* switching off *)
    change (act_checked (ctl_with_flag c false)) with (act_checked c).
    cbn [andb].
    destruct (stop_vcam_fields (ctl_window c)) as (A & B).
    destruct (act_checked c) eqn:Ea; cbn [Bool.eqb].
    + remember (ctl_with_checked (ctl_with_flag c false) false) as c0 eqn:E0.
      assert (W0 : ctl_window c0 = ctl_window c) by (subst c0; reflexivity).
      assert (A0 : act_checked c0 = false) by (subst c0; reflexivity).
      clear E0.
      destruct (vcam_off_spec c0) as (O1 & O2 & O3 & O4).
      rewrite W0 in O4. rewrite A0 in O2.
      destruct (stop_vcam_fields (ctl_window (vcam_off c0))) as (A2 & B2).
      cbn [fst snd ctl_with_window ctl_with_log ctl_window act_checked vcam_enabled].
      rewrite O1, O2, A2.
      split; [reflexivity |]. split; [discriminate |]. split; [auto |].
      split; [intros _; split; reflexivity |].
      eapply kept_window_trans; [exact O4 | exact B2].
    + cbn [fst snd ctl_with_window ctl_with_log ctl_with_flag ctl_window act_checked
             vcam_enabled].
      rewrite A, Ea.
      split; [reflexivity |]. split; [discriminate |]. split; [auto |].
      split; [intros _; split; reflexivity | exact B].
Qed.

(** Pressing [V] with the camera off: the first creation fails, the second
    one succeeds, and the camera runs with its flag and its check mark
    cleared. *)
Example set_vcam_enabled_second_try :
  let c' := fst (set_vcam_enabled true [false; true]
                   (mk_ctl Plain.default_window false false []) true) in
  vcam (ctl_window c') = true /\ vcam_enabled c' = false /\ act_checked c' = false.
Proof. cbv zeta. repeat split. Qed.

Lemma set_vcam_enabled_agrees_witness :
  let c := mk_ctl Plain.default_window false false [] in
  let c' := fst (set_vcam_enabled true [true] c true) in
  let rest := snd (set_vcam_enabled true [true] c true) in
  (vcam (ctl_window c) = true -> true = true) /\
  act_checked c' = vcam_enabled c' /\
  (vcam_enabled c' = true -> vcam (ctl_window c') = true) /\
  (rest = [true] \/ rest = tl [true] \/ rest = tl (tl [true])) /\
  (hd false [true] = true \/ hd false (tl [true]) = false ->
   vcam (ctl_window c') = true && true && (vcam (ctl_window c) || hd false [true]) /\
   vcam_enabled c' = vcam (ctl_window c')) /\
  kept_window (ctl_window c) (ctl_window c').
Proof.
  cbv zeta. split; [intros _; reflexivity |].
  exact (set_vcam_enabled_agrees true [true]
           (mk_ctl Plain.default_window false false []) true (fun _ => eq_refl)).
Defined.

(** ** Scaling up and down again *)

(** X20. From a diameter within the bounds, a step up followed by a step
    down gives the diameter back, except within 20 of the upper bound,
    where it ends at 1060; a step down followed by a step up gives it back
    except within 20 of the lower bound, where it ends at 140.  From any
    diameter, also one outside the bounds, a single step ends within
    them. *)
Theorem scale_circle_there_and_back (st : AppState) :
  diameter_ok st ->
  circle_diameter (scale_circle (scale_circle st 1) (-1)) = Z.min (circle_diameter st) 1060 /\
  circle_diameter (scale_circle (scale_circle st (-1)) 1) = Z.max (circle_diameter st) 140 /\
  forall st' direction, diameter_ok (scale_circle st' direction).
Proof.
  intros Hd. unfold diameter_ok in Hd.
  split; [| split].
  - unfold scale_circle, set_circle_diameter, clamp. cbn [circle_diameter]. lia.
  - unfold scale_circle, set_circle_diameter, clamp. cbn [circle_diameter]. lia.
  - intros st' direction. apply scale_circle_range.
Qed.

Lemma scale_circle_there_and_back_witness :
  let st := mk_state false false 1070 true true in
  diameter_ok st /\
  circle_diameter (scale_circle (scale_circle st 1) (-1)) = Z.min (circle_diameter st) 1060 /\
  circle_diameter (scale_circle (scale_circle st (-1)) 1) = Z.max (circle_diameter st) 140 /\
  forall st' direction, diameter_ok (scale_circle st' direction).
Proof.
  cbv zeta.
  assert (H : diameter_ok (mk_state false false 1070 true true)).
  { unfold diameter_ok. cbn. lia. }
  split; [exact H |].
  exact (scale_circle_there_and_back (mk_state false false 1070 true true) H).
Defined.

(** ** The persisted configuration *)

Module ConfigProperties.

Import String Config ConfigSpec.
Local Open Scope string_scope.

Lemma lookup_set_item_eq (k : string) (v : json) (o : obj) :
  lookup k (set_item k v o) = Some v.
Proof.
  induction o as [| [k' v'] o IH]; cbn.
  - rewrite String.eqb_refl. reflexivity.
  - destruct (String.eqb k' k) eqn:E; cbn; rewrite E; [reflexivity | exact IH].
Qed.

Lemma lookup_set_item_neq (k k' : string) (v : json) (o : obj) :
  k <> k' -> lookup k' (set_item k v o) = lookup k' o.
Proof.
  intros Hne. induction o as [| [k0 v0] o IH]; cbn.
  - destruct (String.eqb_spec k k'); [contradiction | reflexivity].
  - destruct (String.eqb_spec k0 k) as [-> | Hk]; cbn.
    + destruct (String.eqb_spec k k'); [contradiction | reflexivity].
    + destruct (String.eqb k0 k'); [reflexivity | exact IH].
Qed.

Lemma keys_set_item (k : string) (v : json) (o : obj) :
  In k (keys o) -> keys (set_item k v o) = keys o.
Proof.
  induction o as [| [k0 v0] o IH]; cbn; intros Hin; [contradiction |].
  destruct (String.eqb_spec k0 k) as [-> | Hk]; cbn; [reflexivity |].
  f_equal. apply IH. destruct Hin as [E | Hin]; [contradiction | exact Hin].
Qed.

Lemma lookup_in_keys (k : string) (o : obj) :
  In k (keys o) -> exists v, lookup k o = Some v.
Proof.
  induction o as [| [k0 v0] o IH]; cbn; intros Hin; [contradiction |].
  destruct (String.eqb_spec k0 k) as [-> | Hk]; [exists v0; reflexivity |].
  apply IH. destruct Hin as [E | Hin]; [contradiction | exact Hin].
Qed.

Lemma lookup_not_in_keys (k : string) (o : obj) :
  ~ In k (keys o) -> lookup k o = None.
Proof.
  induction o as [| [k0 v0] o IH]; cbn; intros Hin; [reflexivity |].
  destruct (String.eqb_spec k0 k) as [-> | Hk]; [exfalso; apply Hin; left; reflexivity |].
  apply IH. intros H. apply Hin. right. exact H.
Qed.

(** Two objects with the same attributes, each occurring once, and the
    same values are the same object. *)
Lemma obj_ext (o1 o2 : obj) :
  keys o1 = keys o2 -> NoDup (keys o1) ->
  (forall k, In k (keys o1) -> lookup k o1 = lookup k o2) -> o1 = o2.
Proof.
  revert o2. induction o1 as [| [k v] o1 IH]; intros [| [k2 v2] o2] Hk Hnd Hl;
    try discriminate; [reflexivity |].
  cbn in Hk. injection Hk as -> Hk. cbn in Hnd. inversion Hnd as [| a l Hni Hnd']; subst.
  pose proof (Hl k2 (or_introl eq_refl)) as E. cbn in E.
  rewrite String.eqb_refl in E. injection E as ->.
  f_equal. apply IH; [exact Hk | exact Hnd' |].
  intros k Hin. specialize (Hl k (or_intror Hin)). cbn in Hl.
  destruct (String.eqb_spec k2 k) as [-> | Hne]; [contradiction | exact Hl].
Qed.

Lemma load_fields_obj (fields : list string) (d : obj) :
  forall o,
    (forall k, In k fields -> In k (keys o)) ->
    exists o',
      load_fields fields (JObj d) o = (o', true) /\
      keys o' = keys o /\
      forall k,
        lookup k o' =
          if in_dec string_dec k fields then
            match lookup k d with
            | Some v => Some v
            | None => lookup k o
            end
          else lookup k o.
Proof.
  induction fields as [| f fields IH]; intros o Hsub.
  - exists o. split; [reflexivity |]. split; [reflexivity |]. intros k. reflexivity.
  - cbn [load_fields contains get_item].
    assert (Hsub' : forall k, In k fields -> In k (keys o)).
    { intros k Hk. apply Hsub. right. exact Hk. }
    destruct (lookup f d) as [v |] eqn:Ef.
    + assert (Hs : forall k, In k fields -> In k (keys (set_item f v o))).
      { intros k Hk. rewrite keys_set_item; [apply Hsub' | apply Hsub; left]; auto. }
      destruct (IH (set_item f v o) Hs) as (o' & E & K & L).
      exists o'. split; [exact E |].
      split; [rewrite K; apply keys_set_item, Hsub; left; reflexivity |].
      intros k. rewrite L.
      destruct (in_dec string_dec k fields) as [Hin | Hin];
        destruct (in_dec string_dec k (f :: fields)) as [Hin' | Hin'];
        try (exfalso; apply Hin'; right; exact Hin).
      * destruct (lookup k d) eqn:Ek; [reflexivity |].
        destruct (string_dec f k) as [-> | Hne]; [congruence |].
        apply lookup_set_item_neq. exact Hne.
      * destruct Hin' as [-> | Hin']; [| contradiction].
        rewrite lookup_set_item_eq, Ef. reflexivity.
      * apply lookup_set_item_neq. intros ->. apply Hin'. left. reflexivity.
    + destruct (IH o Hsub') as (o' & E & K & L).
      exists o'. split; [exact E |]. split; [exact K |].
      intros k. rewrite L.
      destruct (in_dec string_dec k fields) as [Hin | Hin];
        destruct (in_dec string_dec k (f :: fields)) as [Hin' | Hin'];
        try reflexivity.
      * exfalso. apply Hin'. right. exact Hin.
      * destruct Hin' as [-> | Hin']; [| contradiction]. rewrite Ef. reflexivity.
Qed.

Lemma load_group_ok (name : string) (fields : list string) (d : obj) (o : obj) :
  instance_of fields o -> group_ok (lookup name d) ->
  exists o', load_group name fields (JObj d) o = (o', true) /\
             merged fields (lookup name d) o o'.
Proof.
  intros Hi Hg. unfold load_group. cbn [contains get_item].
  destruct (lookup name d) as [g |] eqn:Eg.
  - destruct g; cbn in Hg; try contradiction.
    destruct (load_fields_obj fields o0 o) as (o' & E & K & L).
    { intros k Hk. rewrite Hi. exact Hk. }
    exists o'. split; [exact E |]. split; [exact K | exact L].
  - exists o. split; [reflexivity |]. split; [reflexivity |]. intros k. reflexivity.
Qed.

Lemma asdict_spec (fields : list string) (o : obj) :
  (forall k, In k fields -> In k (keys o)) ->
  exists d, asdict fields o = Some d /\ keys d = fields /\
            forall k, In k fields -> lookup k d = lookup k o.
Proof.
  induction fields as [| f fields IH]; intros Hsub.
  - exists []. split; [reflexivity |]. split; [reflexivity |]. intros k [].
  - destruct (IH (fun k Hk => Hsub k (or_intror Hk))) as (d & E & K & L).
    destruct (lookup_in_keys f o (Hsub f (or_introl eq_refl))) as (v & Ev).
    exists ((f, v) :: d). cbn [asdict]. rewrite Ev, E.
    split; [reflexivity |].
    split; [change (f :: keys d = f :: fields); rewrite K; reflexivity |].
    intros k Hin. cbn [lookup].
    destruct (String.eqb_spec f k) as [-> | Hne]; [symmetry; exact Ev |].
    apply L. destruct Hin as [E' | Hin]; [contradiction | exact Hin].
Qed.

(** [asdict] of an instance is the instance. *)
Lemma asdict_instance (fields : list string) (o : obj) :
  NoDup fields -> instance_of fields o -> asdict fields o = Some o.
Proof.
  intros Hnd Hi.
  destruct (asdict_spec fields o) as (d & E & K & L).
  { intros k Hk. rewrite Hi. exact Hk. }
  rewrite E. f_equal. apply obj_ext.
  - rewrite K. symmetry. exact Hi.
  - rewrite K. exact Hnd.
  - intros k Hk. apply L. rewrite <- K. exact Hk.
Qed.

Lemma load_fields_same (fields : list string) (o o0 : obj) :
  NoDup fields -> instance_of fields o -> instance_of fields o0 ->
  load_fields fields (JObj o) o0 = (o, true).
Proof.
  intros Hnd Hi Hi0.
  destruct (load_fields_obj fields o o0) as (o' & E & K & L).
  { intros k Hk. rewrite Hi0. exact Hk. }
  rewrite E. f_equal. apply obj_ext.
  - rewrite K, Hi0. symmetry. exact Hi.
  - rewrite K, Hi0. exact Hnd.
  - intros k Hk. rewrite L. rewrite K, Hi0 in Hk.
    destruct (in_dec string_dec k fields) as [_ | Hn]; [| contradiction].
    destruct (lookup k o) eqn:El; [reflexivity |].
    destruct (lookup_in_keys k o) as (v & Ev); [rewrite Hi; exact Hk | congruence].
Qed.

Lemma state_fields_nodup : NoDup state_fields.
Proof.
  unfold state_fields.
  repeat (constructor; [cbn; intuition discriminate |]). constructor.
Qed.

Lemma chroma_fields_nodup : NoDup chroma_fields.
Proof.
  unfold chroma_fields.
  repeat (constructor; [cbn; intuition discriminate |]). constructor.
Qed.

Lemma crop_fields_nodup : NoDup crop_fields.
Proof.
  unfold crop_fields.
  repeat (constructor; [cbn; intuition discriminate |]). constructor.
Qed.

(** X21. Saving and loading is a round trip: for a configuration whose
    three objects are instances of their dataclasses, [save_config] writes
    a file from which [load_config] restores the configuration exactly,
    whatever the configuration it is loaded into. *)
Theorem save_load_round_trip (c c0 : configs) (f : config_file) (can_write : bool) :
  instances c -> instances c0 ->
  exists data,
    save_config true f c = (File data, InfoSaved) /\
    load_config can_write (File data) c0 = (c, File data, InfoLoaded).
Proof.
  intros (Is & Ic & Ir) (Is0 & Ic0 & Ir0).
  unfold save_config, save_data.
  rewrite (asdict_instance _ _ state_fields_nodup Is),
    (asdict_instance _ _ chroma_fields_nodup Ic),
    (asdict_instance _ _ crop_fields_nodup Ir).
  eexists. split; [reflexivity |].
  unfold load_config, ensure_first_run_files, load_from, load_group.
  cbn [contains get_item lookup String.eqb Ascii.eqb Bool.eqb andb].
  rewrite (load_fields_same _ _ _ state_fields_nodup Is Is0). cbn [negb].
  rewrite (load_fields_same _ _ _ chroma_fields_nodup Ic Ic0). cbn [negb].
  rewrite (load_fields_same _ _ _ crop_fields_nodup Ir Ir0).
  destruct c; reflexivity.
Qed.

Lemma merged_instance (fields : list string) (g : option json) (o o' : obj) :
  instance_of fields o -> merged fields g o o' -> instance_of fields o'.
Proof. unfold instance_of. intros Hi [K _]. rewrite K. exact Hi. Qed.

(** X22. Loading merges field by field.  For a file that is a JSON object
    whose groups "state", "chroma" and "crop" are each absent or a JSON
    object, loading into instances succeeds, and every object keeps its
    attributes: a field the group has takes the value of the file, a field
    the group does not have keeps its value, a key of the group that is no
    field is ignored, and an absent group leaves its object as it is. *)
Theorem load_config_merges (c : configs) (d : obj) (can_write : bool) :
  instances c ->
  group_ok (lookup "state" d) -> group_ok (lookup "chroma" d) ->
  group_ok (lookup "crop" d) ->
  exists c',
    load_config can_write (File (JObj d)) c = (c', File (JObj d), InfoLoaded) /\
    merged state_fields (lookup "state" d) (cfg_state c) (cfg_state c') /\
    merged chroma_fields (lookup "chroma" d) (cfg_chroma c) (cfg_chroma c') /\
    merged crop_fields (lookup "crop" d) (cfg_crop c) (cfg_crop c') /\
    instances c'.
Proof.
  intros (Is & Ic & Ir) Gs Gc Gr.
  destruct (load_group_ok "state" state_fields d (cfg_state c) Is Gs) as (st & Es & Ms).
  destruct (load_group_ok "chroma" chroma_fields d (cfg_chroma c) Ic Gc) as (ch & Ec & Mc).
  destruct (load_group_ok "crop" crop_fields d (cfg_crop c) Ir Gr) as (cr & Er & Mr).
  exists (mk_configs st ch cr).
  unfold load_config, ensure_first_run_files, load_from.
  rewrite Es. cbn [negb]. rewrite Ec. cbn [negb]. rewrite Er.
  split; [reflexivity |]. cbn [cfg_state cfg_chroma cfg_crop].
  split; [exact Ms |]. split; [exact Mc |]. split; [exact Mr |].
  split; [| split]; eapply merged_instance; eassumption.
Qed.

Lemma load_fields_scalar (fields : list string) (g : json) (o : obj) :
  is_scalar g -> fields <> [] -> load_fields fields g o = (o, false).
Proof.
  intros Hs Hf. destruct fields as [| k rest]; [contradiction |].
  destruct g; cbn in Hs; try contradiction; reflexivity.
Qed.

(** X23. Loading is not atomic.  When the group "state" is absent or a
    JSON object but the group "chroma" is a scalar (null, a boolean or a
    number), the load raises at the chroma group: the state has already
    taken the values of the file, the chroma settings are untouched, and
    the crop is not loaded at all, whatever the file has for it.  A file
    that cannot be read as JSON changes nothing. *)
Theorem load_config_aborts (c : configs) (d : obj) (g : json) (can_write : bool) :
  instances c ->
  group_ok (lookup "state" d) -> lookup "chroma" d = Some g -> is_scalar g ->
  (exists st,
     load_config can_write (File (JObj d)) c
     = (mk_configs st (cfg_chroma c) (cfg_crop c), File (JObj d), ExcLoad) /\
     merged state_fields (lookup "state" d) (cfg_state c) st) /\
  load_config can_write BadFile c = (c, BadFile, ExcLoad).
Proof.
  intros (Is & Ic & Ir) Gs Eg Hs. split; [| reflexivity].
  destruct (load_group_ok "state" state_fields d (cfg_state c) Is Gs) as (st & Es & Ms).
  exists st. split; [| exact Ms].
  unfold load_config, ensure_first_run_files, load_from.
  rewrite Es. cbn [negb].
  unfold load_group at 1. cbn [contains get_item]. rewrite Eg.
  rewrite (load_fields_scalar chroma_fields g (cfg_chroma c) Hs) by discriminate.
  reflexivity.
Qed.

Lemma defaults_instances : instances (mk_configs default_state default_chroma default_crop).
Proof. repeat split. Qed.

Lemma save_load_round_trip_witness :
  let c := mk_configs (set_item "circle_diameter" (JInt 500) default_state)
             (set_item "pickA" (JArr [JInt 0; JInt 255; JInt 0]) default_chroma)
             default_crop in
  let c0 := mk_configs default_state default_chroma default_crop in
  instances c /\ instances c0 /\
  exists data,
    save_config true NoFile c = (File data, InfoSaved) /\
    load_config false (File data) c0 = (c, File data, InfoLoaded).
Proof.
  cbv zeta.
  assert (I : instances (mk_configs (set_item "circle_diameter" (JInt 500) default_state)
                           (set_item "pickA" (JArr [JInt 0; JInt 255; JInt 0]) default_chroma)
                           default_crop)) by (repeat split).
  split; [exact I |]. split; [exact defaults_instances |].
  exact (save_load_round_trip _ _ NoFile false I defaults_instances).
Defined.

Lemma load_config_merges_witness :
  let c := mk_configs default_state default_chroma default_crop in
  let d := [("state", JObj [("circle_diameter", JInt 500); ("no_such_field", JInt 1)]);
            ("crop", JObj [("rect", JArr [JInt 10; JInt 20; JInt 300; JInt 200])])] in
  instances c /\
  group_ok (lookup "state" d) /\ group_ok (lookup "chroma" d) /\
  group_ok (lookup "crop" d) /\
  exists c',
    load_config true (File (JObj d)) c = (c', File (JObj d), InfoLoaded) /\
    merged state_fields (lookup "state" d) (cfg_state c) (cfg_state c') /\
    merged chroma_fields (lookup "chroma" d) (cfg_chroma c) (cfg_chroma c') /\
    merged crop_fields (lookup "crop" d) (cfg_crop c) (cfg_crop c') /\
    instances c'.
Proof.
  cbv zeta. split; [exact defaults_instances |].
  split; [exact I |]. split; [exact I |]. split; [exact I |].
  exact (load_config_merges (mk_configs default_state default_chroma default_crop)
           [("state", JObj [("circle_diameter", JInt 500); ("no_such_field", JInt 1)]);
            ("crop", JObj [("rect", JArr [JInt 10; JInt 20; JInt 300; JInt 200])])]
           true defaults_instances I I I).
Defined.

Lemma load_config_aborts_witness :
  let c := mk_configs default_state default_chroma default_crop in
  let d := [("state", JObj [("circle_diameter", JInt 500)]);
            ("chroma", JInt 5);
            ("crop", JObj [("enabled", JBool true)])] in
  instances c /\
  group_ok (lookup "state" d) /\ lookup "chroma" d = Some (JInt 5) /\ is_scalar (JInt 5) /\
  (exists st,
     load_config true (File (JObj d)) c
     = (mk_configs st (cfg_chroma c) (cfg_crop c), File (JObj d), ExcLoad) /\
     merged state_fields (lookup "state" d) (cfg_state c) st) /\
  load_config true BadFile c = (c, BadFile, ExcLoad).
Proof.
  cbv zeta. split; [exact defaults_instances |].
  split; [exact I |]. split; [reflexivity |]. split; [exact I |].
  exact (load_config_aborts (mk_configs default_state default_chroma default_crop)
           [("state", JObj [("circle_diameter", JInt 500)]);
            ("chroma", JInt 5);
            ("crop", JObj [("enabled", JBool true)])]
           (JInt 5) true defaults_instances I eq_refl I).
Defined.

(** The load of the last witness: the diameter of the file is taken, the
    crop stays disabled although the file enables it. *)
Example load_config_partial :
  let d := [("state", JObj [("circle_diameter", JInt 500)]);
            ("chroma", JInt 5);
            ("crop", JObj [("enabled", JBool true)])] in
  let r := load_config true (File (JObj d))
             (mk_configs default_state default_chroma default_crop) in
  lookup "circle_diameter" (cfg_state (fst (fst r))) = Some (JInt 500) /\
  lookup "enabled" (cfg_crop (fst (fst r))) = Some (JBool false) /\
  snd r = ExcLoad.
Proof. cbv zeta. repeat split. Qed.

(** The first run: no file, one is created as an empty object, and the
    defaults stay. *)
Example load_config_first_run :
  load_config true NoFile (mk_configs default_state default_chroma default_crop)
  = (mk_configs default_state default_chroma default_crop, File (JObj []), InfoLoaded).
Proof. reflexivity. Qed.

End ConfigProperties.

(** ** The command line *)

Module CliProperties.

Import Ascii String Cli.
Local Open Scope string_scope.

Lemma lower_ascii_x (c : ascii) :
  c <> "x"%char -> c <> "X"%char -> lower_ascii c <> "x"%char.
Proof.
  intros Hx HX. unfold lower_ascii.
  destruct ((65 <=? nat_of_ascii c)%nat && (nat_of_ascii c <=? 90)%nat) eqn:E;
    [| exact Hx].
  apply andb_true_iff in E. destruct E as [E1 E2].
  apply Nat.leb_le in E1. apply Nat.leb_le in E2.
  intros Hc. apply HX.
  rewrite <- (ascii_nat_embedding c).
  apply (f_equal nat_of_ascii) in Hc.
  rewrite nat_ascii_embedding in Hc by lia.
  change (nat_of_ascii "x") with 120%nat in Hc.
  replace (nat_of_ascii c) with 88%nat by lia. reflexivity.
Qed.

Lemma lower_app (a b : string) : lower (a ++ b) = lower a ++ lower b.
Proof. induction a as [| c a IH]; cbn; [reflexivity | rewrite IH; reflexivity]. Qed.

Lemma split_nonempty (sep : ascii) (s : string) : split sep s <> [].
Proof.
  destruct s as [| c s]; cbn; [discriminate |].
  destruct (Ascii.eqb c sep); [discriminate |].
  destruct (split sep s); discriminate.
Qed.

(** A part without the separator, then the separator. *)
Lemma split_part (a rest : string) :
  no_x a -> split "x" (lower a ++ String "x" rest) = lower a :: split "x" rest.
Proof.
  induction a as [| c a IH]; intros Hn; cbn [lower append].
  - cbn. reflexivity.
  - destruct Hn as (Hx & HX & Hn). cbn [split].
    destruct (Ascii.eqb_spec (lower_ascii c) "x") as [E | E];
      [exfalso; exact (lower_ascii_x c Hx HX E) |].
    rewrite (IH Hn). reflexivity.
Qed.

Lemma split_last (a : string) : no_x a -> split "x" (lower a) = [lower a].
Proof.
  induction a as [| c a IH]; intros Hn; cbn [lower]; [reflexivity |].
  destruct Hn as (Hx & HX & Hn). cbn [split].
  destruct (Ascii.eqb_spec (lower_ascii c) "x") as [E | E];
    [exfalso; exact (lower_ascii_x c Hx HX E) |].
  rewrite (IH Hn). reflexivity.
Qed.

Lemma lower_X : lower_ascii "X" = "x"%char.
Proof. reflexivity. Qed.

(** X24. [parse_size] splits at the first two [x], in either case, and
    reads the two parts before them.  For [a] and [b] without an [x]:
    [a + "x" + b] gives [(int(a.lower()), int(b.lower()))] when both
    conversions succeed and an error otherwise; an upper-case [X]
    separates as well; whatever follows a second [x] is ignored; and a
    string without any [x] is an error. *)
Theorem parse_size_parts (int : string -> option Z) (a b rest : string) :
  no_x a -> no_x b ->
  let result := match int (lower a), int (lower b) with
                | Some W, Some H => Some (W, H)
                | _, _ => None
                end in
  parse_size int (a ++ "x" ++ b) = result /\
  parse_size int (a ++ "X" ++ b) = result /\
  parse_size int (a ++ "x" ++ b ++ "x" ++ rest) = result /\
  parse_size int a = None.
Proof.
  intros Ha Hb. cbv zeta. unfold parse_size.
  repeat split.
  - rewrite lower_app. cbn [append lower]. change (lower_ascii "x") with "x"%char.
    rewrite (split_part a _ Ha), (split_last b Hb). reflexivity.
  - rewrite lower_app. cbn [append lower]. rewrite lower_X.
    rewrite (split_part a _ Ha), (split_last b Hb). reflexivity.
  - rewrite lower_app. cbn [append lower]. change (lower_ascii "x") with "x"%char.
    rewrite (split_part a _ Ha). rewrite lower_app. cbn [append lower].
    change (lower_ascii "x") with "x"%char.
    rewrite (split_part b _ Hb).
    destruct (split "x" (lower rest)); reflexivity.
  - rewrite (split_last a Ha). reflexivity.
Qed.

Lemma parse_size_parts_witness :
  no_x "1920" /\ no_x "1080" /\
  let result := match plain_int (lower "1920"), plain_int (lower "1080") with
                | Some W, Some H => Some (W, H)
                | _, _ => None
                end in
  parse_size plain_int ("1920" ++ "x" ++ "1080") = result /\
  parse_size plain_int ("1920" ++ "X" ++ "1080") = result /\
  parse_size plain_int ("1920" ++ "x" ++ "1080" ++ "x" ++ "60") = result /\
  parse_size plain_int "1920" = None.
Proof.
  assert (Ha : no_x "1920") by (cbn; repeat split; discriminate).
  assert (Hb : no_x "1080") by (cbn; repeat split; discriminate).
  split; [exact Ha |]. split; [exact Hb |].
  exact (parse_size_parts plain_int "1920" "1080" "60" Ha Hb).
Defined.

(** The default of [--vcam_res] as a string, and a string with three
    parts. *)
Example parse_size_default :
  parse_size plain_int "1920x1080" = Some (1920, 1080) /\
  parse_size plain_int "1280X720x30" = Some (1280, 720) /\
  parse_size plain_int "1920*1080" = None.
Proof. repeat split. Qed.

End CliProperties.
